(** * Manifest audit and EPUB packaging: a shallow embedding

    The two scripts [manifest_audit.py] and [epub_fixer.py] are embedded as
    Rocq functions.  A Python text is held as its UTF-8 bytes ([string]);
    Python exceptions are an explicit outcome; [self] and the file system
    are explicit state. *)

From stdpp Require Import gmap strings list sorting.
From Stdlib Require Import Ascii DecimalString DecimalNat.

(** ** The platform

    What the scripts take from the interpreter and the operating system they
    run on, and the source does not settle: the Unicode tables behind
    [str.isdigit], [int] and [str.lower] for characters beyond ASCII, the
    limit of the interpreter on the digits of a numeral, and the order in
    which a directory is listed.  In UTF-8 the ASCII characters are the
    bytes below 128, and no such byte is part of another character. *)

Class platform : Type := Platform {
  (** [s[0].isdigit()] for a text [s] that begins with a character beyond
      ASCII *)
  isdigit_beyond_ascii : string → bool;
  (** [int(s)] for a text [s] that holds a character beyond ASCII; [None] is
      [ValueError] *)
  int_beyond_ascii : string → option Z;
  (** [s.lower()] for a text [s] that holds a character beyond ASCII *)
  lower_beyond_ascii : string → string;
  (** [sys.get_int_max_str_digits()]; [0] when the interpreter sets no
      limit *)
  int_max_str_digits : nat;
  (** [os.scandir] lists the entries of a directory by increasing rank of
      their paths *)
  scandir_rank : string → nat
}.

(** ** Python string primitives *)

Module Py.

Definition ascii_char (c : ascii) : bool := (nat_of_ascii c <? 128)%nat.

(** [s.isascii()] *)
Fixpoint isascii (s : string) : bool :=
  match s with
  | "" => true
  | String c r => ascii_char c && isascii r
  end.

(** The ASCII digits. *)
Definition digit (c : ascii) : bool :=
  let n := nat_of_ascii c in (48 <=? n)%nat && (n <=? 57)%nat.

Definition digit_val (c : ascii) : Z := Z.of_nat (nat_of_ascii c - 48).

(** [s[0].isdigit()] for a text [s] that is not empty: among the ASCII
    characters the digits are [0] to [9]. *)
Definition isdigit `{platform} (s : string) : bool :=
  match s with
  | "" => false
  | String c _ => if ascii_char c then digit c else isdigit_beyond_ascii s
  end.

(** [s.lower()]: in an ASCII text the letters [A-Z] move to [a-z] and every
    other character is kept. *)
Definition lower_char (c : ascii) : ascii :=
  let n := nat_of_ascii c in
  if (65 <=? n)%nat && (n <=? 90)%nat then ascii_of_nat (n + 32) else c.

Fixpoint lower_ascii (s : string) : string :=
  match s with
  | "" => ""
  | String c r => String (lower_char c) (lower_ascii r)
  end.

Definition lower `{platform} (s : string) : string :=
  if isascii s then lower_ascii s else lower_beyond_ascii s.

Definition startswith (s p : string) : bool := String.prefix p s.

Fixpoint drop (n : nat) (s : string) : string :=
  match n, s with
  | O, _ => s
  | S _, "" => ""
  | S k, String _ r => drop k r
  end.

Definition endswith (s p : string) : bool :=
  (String.length p <=? String.length s)%nat
  && String.eqb (drop (String.length s - String.length p) s) p.

(** [s.replace(old, new)] for a non-empty [old]: a left-to-right scan; at a
    match the replacement is emitted and the rest of the match is skipped.
    [skip] counts the bytes of the current match still to be dropped. *)
Fixpoint replace_from (old new s : string) (skip : nat) : string :=
  match s with
  | "" => ""
  | String c r =>
      match skip with
      | S k => replace_from old new r k
      | O =>
          if String.prefix old s
          then new +:+ replace_from old new r (String.length old - 1)
          else String c (replace_from old new r 0)
      end
  end.

(** With an empty [old] Python puts [new] before every character and at the
    end. *)
Fixpoint intersperse_all (new s : string) : string :=
  match s with
  | "" => new
  | String c r => new +:+ String c (intersperse_all new r)
  end.

Definition replace (s old new : string) : string :=
  match old with
  | "" => intersperse_all new s
  | _ => replace_from old new s 0
  end.

(** [re.sub('-+', '-', s)]: every maximal run of hyphens becomes one. *)
Fixpoint sub_hyphen_runs (s : string) : string :=
  match s with
  | "" => ""
  | String c r =>
      if Ascii.eqb c "-" && String.prefix "-" r
      then sub_hyphen_runs r
      else String c (sub_hyphen_runs r)
  end.

(** [s.split(sep)[0]] for a one-character separator. *)
Fixpoint split_head (sep : ascii) (s : string) : string :=
  match s with
  | "" => ""
  | String c r => if Ascii.eqb c sep then "" else String c (split_head sep r)
  end.

(** [str(n)] and the format [{n:03d}] for a natural number. *)
Definition str_of_nat (n : nat) : string :=
  NilEmpty.string_of_uint (Nat.to_uint n).

Definition str_of_Z (z : Z) : string :=
  NilZero.string_of_int (Z.to_int z).

Fixpoint zeros (n : nat) : string :=
  match n with
  | O => ""
  | S k => String "0" (zeros k)
  end.

Definition format_03d (n : nat) : string :=
  let s := str_of_nat n in zeros (3 - String.length s) +:+ s.

(** [int(s)] on an ASCII text: the white space around the numeral is
    skipped (tab to carriage return, and the space), a sign is optional, the
    digits may be separated by single underscores, and a numeral with more
    digits than the limit of the interpreter is refused.  [None] is
    [ValueError]. *)
Definition isspace (c : ascii) : bool :=
  let n := nat_of_ascii c in
  ((9 <=? n)%nat && (n <=? 13)%nat) || (n =? 32)%nat.

Fixpoint lstrip (s : string) : string :=
  match s with
  | "" => ""
  | String c r => if isspace c then lstrip r else s
  end.

Fixpoint rstrip (s : string) : string :=
  match s with
  | "" => ""
  | String c r =>
      match rstrip r with
      | "" => if isspace c then "" else String c ""
      | r' => String c r'
      end
  end.

Fixpoint digits_value (s : string) (acc : Z) (after_digit : bool) : option Z :=
  match s with
  | "" => if after_digit then Some acc else None
  | String c r =>
      if digit c then digits_value r (10 * acc + digit_val c)%Z true
      else if Ascii.eqb c "_" && after_digit then digits_value r acc false
      else None
  end.

Fixpoint count_digits (s : string) : nat :=
  match s with
  | "" => 0
  | String c r => (if digit c then 1 else 0) + count_digits r
  end.

Definition over_limit `{platform} (body : string) : bool :=
  (0 <? int_max_str_digits)%nat && (int_max_str_digits <? count_digits body)%nat.

Definition numeral `{platform} (body : string) : option Z :=
  if over_limit body then None else digits_value body 0 false.

Definition int_ascii `{platform} (s : string) : option Z :=
  match rstrip (lstrip s) with
  | String "+" r => numeral r
  | String "-" r => Z.opp <$> numeral r
  | t => numeral t
  end.

Definition int `{platform} (s : string) : option Z :=
  if isascii s then int_ascii s else int_beyond_ascii s.

(** [s * n] *)
Fixpoint times (s : string) (n : nat) : string :=
  match n with
  | O => ""
  | S k => s +:+ times s k
  end.

End Py.

(** ** Vocabulary on strings *)

(** Every character of [s] passes the test [p]. *)
Fixpoint all_chars (p : ascii → bool) (s : string) : bool :=
  match s with
  | "" => true
  | String c r => p c && all_chars p r
  end.

(** [old] occurs in [s], at some position. *)
Fixpoint occurs (old s : string) : bool :=
  String.prefix old s
  || match s with
     | "" => false
     | String _ r => occurs old r
     end.

Definition starts_with_hyphen (s : string) : bool := String.prefix "-" s.

(** No hyphen of [s] is followed by another. *)
Fixpoint no_double_hyphen (s : string) : bool :=
  match s with
  | "" => true
  | String c r => negb (Ascii.eqb c "-" && starts_with_hyphen r) && no_double_hyphen r
  end.

Definition is_upper (c : ascii) : bool :=
  let n := nat_of_ascii c in (65 <=? n)%nat && (n <=? 90)%nat.

Definition is_space (c : ascii) : bool := Ascii.eqb c " ".

(** ** Python outcomes

    A call either returns a value or raises; the exceptions are the ones the
    two scripts can meet. *)

Inductive exn : Type :=
  | TypeError | AttributeError | IndexError | XMLSyntaxError
  | FileNotFoundError | FileExistsError | IsADirectoryError | NotADirectoryError
  | OSError.

Inductive outcome (A : Type) : Type :=
  | Return (a : A)
  | Raise (e : exn).

Arguments Return {A} a.
Arguments Raise {A} e.

#[export] Instance outcome_ret : MRet outcome := @Return.
#[export] Instance outcome_bind : MBind outcome := λ A B f m,
  match m with
  | Return a => f a
  | Raise e => Raise e
  end.
#[export] Instance outcome_fmap : FMap outcome := λ A B f m,
  match m with
  | Return a => Return (f a)
  | Raise e => Raise e
  end.

(** A [for] loop whose body may raise: the first exception ends the loop. *)
Fixpoint for_each {A S : Type} (body : S → A → outcome S) (l : list A) (s : S)
  : outcome S :=
  match l with
  | [] => Return s
  | x :: r => s' ← body s x; for_each body r s'
  end.

(** A method: it reads and updates the state of its object and the world
    around it, and returns or raises.  What it did before raising stays
    done. *)
Definition stateful (S A : Type) : Type := S → outcome A * S.

#[export] Instance stateful_ret {S} : MRet (stateful S) := λ A a st, (Return a, st).
#[export] Instance stateful_bind {S} : MBind (stateful S) := λ A B f m st,
  match m st with
  | (Return a, st') => f a st'
  | (Raise e, st') => (Raise e, st')
  end.

Definition lift {S A : Type} (o : outcome A) : stateful S A := λ st, (o, st).

Definition gets {S A : Type} (f : S → A) : stateful S A := λ st, (Return (f st), st).

(** [try: body except Exception as e: handler(e)] *)
Definition try_except {S A : Type} (body : stateful S A)
    (handler : exn → stateful S A) : stateful S A := λ st,
  match body st with
  | (Return a, st') => (Return a, st')
  | (Raise e, st') => handler e st'
  end.

(** A [for] loop over a list already enumerated, with a stateful body. *)
Fixpoint for_ {S A : Type} (body : A → stateful S unit) (l : list A)
  : stateful S unit :=
  match l with
  | [] => mret ()
  | x :: r => body x;; for_ body r
  end.

Definition str_opt (o : option string) : string :=
  match o with
  | Some s => s
  | None => "None"
  end.

Definition nl : string := String (ascii_of_nat 10) "".

(** ** [manifest_audit.py] *)

Module ManifestAuditor.

(** An [<item>] and an [<itemref>] of the parsed manifest, as the attribute
    reads [item.get('id')], [item.get('href')] and [spine_item.get('idref')]
    see them: an absent attribute reads as [None]. *)
Record item : Type := Item { item_id : option string; item_href : option string }.

Record itemref : Type := ItemRef { idref : option string }.

(** What the auditor observes of the package tree below [epub_dir]. *)
Record package : Type := Package {
  (** [self.content_opf.exists()] *)
  opf_exists : bool;
  (** [etree.parse] followed by the two [xpath] queries, or the exception
      that the parser raises *)
  opf_parse : outcome (list item * list itemref);
  (** [(self.oebps_dir / href).exists()] *)
  href_exists : string → bool;
  (** [os.walk(self.oebps_dir)]: each visited directory, as its path
      relative to [OEBPS] (empty for [OEBPS] itself), with its files *)
  walk : list (string * list string)
}.

(** The auditor object: [self.issues], and the lines sent to [print]. *)
Record auditor : Type := Auditor { issues : list string; stdout : list string }.

Abbreviation M := (stateful auditor).

Definition print (line : string) : M unit :=
  λ st, (Return (), Auditor (issues st) (stdout st ++ [line])).

Definition issues_append (x : string) : M unit :=
  λ st, (Return (), Auditor (issues st ++ [x]) (stdout st)).

Definition issues_extend (xs : list string) : M unit :=
  λ st, (Return (), Auditor (issues st ++ xs) (stdout st)).

Definition print_all (f : string → string) (xs : list string) : M unit :=
  for_ (λ x, print (f x)) xs.

Definition rule : string := "----------------------------------------".

(** *** Existence check *)

(** The loop of [check_manifest_files]. *)
Definition missing_files (pkg : package) (manifest_items : list item)
  : outcome (list string) :=
  for_each (λ missing it,
      match item_href it with
      | None => Raise TypeError
      | Some href =>
          if href_exists pkg href then Return missing
          else Return (missing ++ ["Missing: " +:+ href +:+ " (referenced in manifest)"])
      end)
    manifest_items [].

Definition check_manifest_files (pkg : package) (manifest_items : list item)
  : M unit :=
  print "1. MANIFEST FILE EXISTENCE CHECK";;
  print rule;;
  missing ← lift (missing_files pkg manifest_items);
  match missing with
  | _ :: _ =>
      issues_extend missing;;
      print_all (λ x, "❌ " +:+ x) missing
  | [] => print "✅ All manifest entries have corresponding files"
  end;;
  print ("Total manifest items: " +:+ Py.str_of_nat (length manifest_items));;
  print ("Missing files: " +:+ Py.str_of_nat (length missing) +:+ nl).

(** *** Orphan check *)

Definition relative_path (root file : string) : string :=
  match root with
  | "" => file
  | _ => root +:+ "/" +:+ file
  end.

Definition manifest_hrefs (manifest_items : list item) : gset (option string) :=
  list_to_set (item_href <$> manifest_items).

(** The two nested loops of [check_orphan_files]. *)
Definition orphan_files (pkg : package) (manifest_items : list item)
  : list string :=
  let hrefs := manifest_hrefs manifest_items in
  foldl (λ orphans '(root, files),
      foldl (λ orphans file,
          if String.eqb file "content.opf" then orphans
          else
            let rel := relative_path root file in
            if decide (Some rel ∈ hrefs) then orphans else orphans ++ [rel])
        orphans files)
    [] (walk pkg).

Definition orphan_issue (orphans : list string) : string :=
  "Found " +:+ Py.str_of_nat (length orphans) +:+ " orphan files not in manifest".

Definition check_orphan_files (pkg : package) (manifest_items : list item)
  : M unit :=
  print "2. ORPHAN FILES CHECK";;
  print rule;;
  let orphans := orphan_files pkg manifest_items in
  match orphans with
  | _ :: _ =>
      issues_append (orphan_issue orphans);;
      print_all (λ x, "⚠️  Orphan: " +:+ x) orphans
  | [] => print "✅ No orphan files found"
  end;;
  print ("Total OEBPS files: "
         +:+ Py.str_of_nat (size (manifest_hrefs manifest_items) + length orphans + 1));;
  print ("Orphan files: " +:+ Py.str_of_nat (length orphans) +:+ nl).

(** *** Spine integrity check *)

Section on_a_platform.
Context {pf : platform}.

(** The dictionary [{item.get('id'): item.get('href') for item in ...}]: a
    later item with the same id replaces an earlier one. *)
Definition manifest_ids (manifest_items : list item)
  : gmap (option string) (option string) :=
  foldl (λ d it, <[item_id it := item_href it]> d) ∅ manifest_items.

(** The first loop of [check_spine_integrity]: the unresolved idrefs and the
    count of XHTML documents. *)
Definition spine_issues (manifest_items : list item) (spine_items : list itemref)
  : outcome (list string * nat) :=
  let ids := manifest_ids manifest_items in
  for_each (λ '(found, xhtml_count) '(i, spine_item),
      match ids !! idref spine_item with
      | None =>
          Return (found ++ ["Spine item " +:+ Py.str_of_nat (i + 1) +:+ ": ID '"
                            +:+ str_opt (idref spine_item)
                            +:+ "' not found in manifest"], xhtml_count)
      | Some None => Raise AttributeError
      | Some (Some href) =>
          Return (found, if Py.endswith href ".xhtml" then S xhtml_count
                         else xhtml_count)
      end)
    (imap pair spine_items) ([], 0).

(** The ordinal read from a file name, [int(href.split('-')[0][5:])]. *)
Definition file_num (href : string) : option Z :=
  Py.int (Py.drop 5 (Py.split_head "-" href)).

(** What the reading-order loop reads from an href: its ordinal, or [None]
    when the item is passed over.  [href[5]] is the character after
    [text/]. *)
Definition numbered (href : string) : outcome (option Z) :=
  if Py.startswith href "text/" then
    match Py.drop 5 href with
    | "" => Raise IndexError
    | rest => if Py.isdigit rest then Return (file_num href) else Return None
    end
  else Return None.

Definition order_issue (href : string) (n prev_num : Z) : string :=
  "Reading order issue: " +:+ href +:+ " (#" +:+ Py.str_of_Z n +:+ ") after #"
  +:+ Py.str_of_Z prev_num.

(** One turn of the reading-order loop, on the list built so far and on
    [prev_num]. *)
Definition reading_order_step (ids : gmap (option string) (option string))
    (st : list string * Z) (spine_item : itemref) : outcome (list string * Z) :=
  let '(found, prev_num) := st in
  match ids !! idref spine_item with
  | None => Return st
  | Some None => Raise AttributeError
  | Some (Some href) =>
      o ← numbered href;
      match o with
      | Some n =>
          Return (if (n <? prev_num)%Z
                  then found ++ [order_issue href n prev_num]
                  else found,
                  n)
      | None => Return st
      end
  end.

Definition reading_order_issues (manifest_items : list item)
    (spine_items : list itemref) : outcome (list string) :=
  fst <$> for_each (reading_order_step (manifest_ids manifest_items))
            spine_items ([], 0%Z).

Definition check_spine_integrity (manifest_items : list item)
    (spine_items : list itemref) : M unit :=
  print "3. SPINE INTEGRITY CHECK";;
  print rule;;
  '(unresolved, xhtml_count) ← lift (spine_issues manifest_items spine_items);
  match unresolved with
  | _ :: _ =>
      issues_extend unresolved;;
      print_all (λ x, "❌ " +:+ x) unresolved
  | [] => print "✅ All spine items reference valid manifest entries"
  end;;
  order ← lift (reading_order_issues manifest_items spine_items);
  match order with
  | _ :: _ =>
      issues_extend order;;
      print_all (λ x, "⚠️  " +:+ x) order
  | [] => print "✅ Reading order appears correct"
  end;;
  print ("Total spine items: " +:+ Py.str_of_nat (length spine_items));;
  print ("XHTML files in spine: " +:+ Py.str_of_nat xhtml_count);;
  print ("Spine issues: " +:+ Py.str_of_nat (length (unresolved ++ order)) +:+ nl).

(** *** [ManifestAuditor.audit] *)

Definition audit (pkg : package) : M bool :=
  print ("=== MANIFEST & SPINE AUDIT ===" +:+ nl);;
  if negb (opf_exists pkg) then
    issues_append "CRITICAL: content.opf not found";;
    mret false
  else
    '(manifest_items, spine_items) ← lift (opf_parse pkg);
    check_manifest_files pkg manifest_items;;
    check_orphan_files pkg manifest_items;;
    check_spine_integrity manifest_items spine_items;;
    found ← gets issues;
    mret (bool_decide (length found = 0)).

(** A new [ManifestAuditor(epub_dir)]. *)
Definition fresh : auditor := Auditor [] [].

(** *** Vocabulary of the statements *)

Definition critical : string := "CRITICAL: content.opf not found".

Definition banner : string := "=== MANIFEST & SPINE AUDIT ===" +:+ nl.

(** The entry that the orphan check leaves in [self.issues]. *)
Definition orphan_summary (orphans : list string) : list string :=
  match orphans with
  | [] => []
  | _ => [orphan_issue orphans]
  end.

(** The texts that the three checks put into [self.issues]. *)
Definition is_defect (x : string) : bool :=
  String.prefix "Missing: " x || String.prefix "Found " x
  || String.prefix "Spine item " x || String.prefix "Reading order issue: " x.

(** The decreases of a sequence of ordinals, each against the ordinal read
    just before it ([prev_num] for the first): the href and ordinal of the
    later item with the ordinal it fell from. *)
Fixpoint drops (prev_num : Z) (ordinals : list (string * Z))
  : list (string * Z * Z) :=
  match ordinals with
  | [] => []
  | (href, n) :: r =>
      (if (n <? prev_num)%Z then [(href, n, prev_num)] else []) ++ drops n r
  end.

(** The decreases against the largest ordinal read so far, for comparison. *)
Fixpoint drops_below_max (max_num : Z) (ordinals : list (string * Z))
  : list (string * Z * Z) :=
  match ordinals with
  | [] => []
  | (href, n) :: r =>
      (if (n <? max_num)%Z then [(href, n, max_num)] else [])
      ++ drops_below_max (Z.max max_num n) r
  end.

(** Every text of [xs] is one of these. *)
Definition defects (xs : list string) : Prop :=
  Forall (λ x, is_defect x = true) xs.

(** The issue that the loop words for a decrease. *)
Definition issue_of (d : string * Z * Z) : string :=
  let '(href, n, prev_num) := d in order_issue href n prev_num.

(** A spine item as the reading-order loop takes it: [Some (href, n)] when it
    reads the ordinal [n] from [href], [None] when it passes the item over. *)
Definition reads (ids : gmap (option string) (option string))
    (spine_item : itemref) (o : option (string * Z)) : Prop :=
  match o with
  | Some (href, n) =>
      ids !! idref spine_item = Some (Some href) ∧ numbered href = Return (Some n)
  | None =>
      ids !! idref spine_item = None
      ∨ ∃ href, ids !! idref spine_item = Some (Some href)
                ∧ numbered href = Return None
  end.

(** *** [ManifestAuditor.save_report] and the script's entry point *)

(** The text that [save_report] writes, from [self.issues]. *)
Definition report_text (found : list string) : string :=
  "MANIFEST & SPINE AUDIT REPORT" +:+ nl
  +:+ Py.times "=" 50 +:+ nl +:+ nl
  +:+ match found with
      | [] =>
          "✅ AUDIT PASSED - No issues found" +:+ nl +:+ nl
          +:+ "All manifest entries correspond to existing files" +:+ nl
          +:+ "No orphan files detected" +:+ nl
          +:+ "Spine references are valid and in correct order" +:+ nl
      | _ =>
          "❌ AUDIT FOUND " +:+ Py.str_of_nat (length found) +:+ " ISSUES" +:+ nl +:+ nl
          +:+ foldl (λ acc line, acc +:+ line) ""
                (imap (λ i issue, Py.str_of_nat (i + 1) +:+ ". " +:+ issue +:+ nl) found)
      end.

(** [save_report(output_file)], on the auditor and on the files it writes
    outside the package, by path. *)
Definition save_report (output_file : string)
  : stateful (auditor * gmap string string) unit := λ '(a, files),
  (Return (),
   (Auditor (issues a) (stdout a ++ ["Report saved to: " +:+ output_file]),
    <[output_file := report_text (issues a)]> files)).

(** The [__main__] block on the package it is pointed at: the exit status
    with the auditor and the files it leaves.  An exception of [audit] ends
    the script with status 1 before any report is written. *)
Definition main (pkg : package) (files : gmap string string)
  : nat * (auditor * gmap string string) :=
  match audit pkg fresh with
  | (Raise _, a) => (1, (a, files))
  | (Return success, a) =>
      let '(a', files') := (save_report "opf_audit.txt" (a, files)).2 in
      if success
      then (0, ((print "🎉 MANIFEST & SPINE AUDIT PASSED" a').2, files'))
      else (1, ((print "⚠️  MANIFEST & SPINE AUDIT FOUND ISSUES" a').2, files'))
  end.

End on_a_platform.

(** The text of a missing-file defect. *)
Definition missing_issue (href : string) : string :=
  "Missing: " +:+ href +:+ " (referenced in manifest)".

End ManifestAuditor.

(** ** [epub_fixer.py] *)

Module EPUBFixer.

(** *** The project directory *)

(** An entry below [project_dir], under its path relative to it: a regular
    file with its content, or a directory.  The package archive is kept
    apart, in [epub]. *)
Inductive entry : Type :=
  | File (content : string)
  | Dir.

Inductive compress_type : Type := ZIP_STORED | ZIP_DEFLATED.

Record zip_member : Type := ZipMember {
  arcname : string;
  compress : compress_type;
  data : string
}.

Inductive log_record : Type :=
  | Info (msg : string)
  | Error (msg : string) (cause : exn).

(** The [EPUBFixer] object with the world it acts on: [project_dir], the
    entries below it, the archive [curls-and-contemplation.epub] as the
    members written to it ([None]: no archive), [self.fixes_log] and the
    records sent to [logger]. *)
Record fixer : Type := Fixer {
  project_dir : string;
  tree : gmap string entry;
  epub : option (list zip_member);
  fixes_log : list string;
  log : list log_record
}.

Abbreviation F := (stateful fixer).

Section on_a_platform.
Context {pf : platform}.

(** [EPUBFixer.normalize_filename]: it reads nothing but its argument. *)
Definition normalize_filename (filename : string) : string :=
  let name := Py.replace filename "_final" "" in
  let name := Py.lower name in
  let name := Py.replace name " " "-" in
  let name := Py.sub_hyphen_runs name in
  let name := Py.replace name "continuedlearningcommitment-2" "continued-learning-commitment" in
  let name := Py.replace name "affirmationsclose" "affirmations-close" in
  let name := Py.replace name "selfcarejournal" "self-care-journal" in
  let name := Py.replace name "journalpage" "journal-page" in
  let name := Py.replace name "professionaldevelopment" "professional-development" in
  let name := Py.replace name "affirmationodyssey" "affirmation-odyssey" in
  name.

Definition set_tree (t : gmap string entry) (st : fixer) : fixer :=
  Fixer (project_dir st) t (epub st) (fixes_log st) (log st).

Definition set_epub (z : option (list zip_member)) (st : fixer) : fixer :=
  Fixer (project_dir st) (tree st) z (fixes_log st) (log st).

Definition logger (r : log_record) : F unit := λ st,
  (Return (), Fixer (project_dir st) (tree st) (epub st) (fixes_log st) (log st ++ [r])).

(** [EPUBFixer.log_fix] *)
Definition log_fix (filename change : string) : F unit := λ st,
  logger (Info ("Fixed " +:+ filename +:+ ": " +:+ change))
    (Fixer (project_dir st) (tree st) (epub st)
       (fixes_log st ++ [filename +:+ ": " +:+ change]) (log st)).

(** [dir / name]; the empty [dir] is [project_dir] itself. *)
Definition joinpath (dir name : string) : string :=
  match dir with
  | "" => name
  | _ => dir +:+ "/" +:+ name
  end.

Fixpoint has_slash (s : string) : bool :=
  match s with
  | "" => false
  | String c r => Ascii.eqb c "/" || has_slash r
  end.

(** The name under which [path] is an entry of the directory [dir], if it is
    one. *)
Definition child_name (dir path : string) : option string :=
  let pre := joinpath dir "" in
  if String.prefix pre path then
    match Py.drop (String.length pre) path with
    | "" => None
    | n => if has_slash n then None else Some n
    end
  else None.

(** The entries of [dir] in the order in which the operating system lists
    them. *)
Definition listed_before (dir a b : string) : Prop :=
  scandir_rank (joinpath dir a) ≤ scandir_rank (joinpath dir b).

#[local] Instance listed_before_dec dir a b : Decision (listed_before dir a b).
Proof. unfold listed_before. apply _. Defined.

Definition iterdir (t : gmap string entry) (dir : string) : list string :=
  merge_sort (listed_before dir)
    (elements (set_omap (child_name dir) (dom t) : gset string)).

(** [dir.glob('*' + suffix)] *)
Definition glob (t : gmap string entry) (dir suffix : string) : list string :=
  filter (λ n, Is_true (Py.endswith n suffix)) (iterdir t dir).

(** [path.exists()] *)
Definition exists_ (t : gmap string entry) (path : string) : bool :=
  bool_decide (is_Some (t !! path)).

(** [open(dir / name, 'w').write(content)] *)
Definition write_text (dir name content : string) : F unit := λ st,
  let t := tree st in
  let path := joinpath dir name in
  match t !! path with
  | Some Dir => (Raise IsADirectoryError, st)
  | _ =>
      match dir, t !! dir with
      | "", _ | _, Some Dir => (Return (), set_tree (<[path := File content]> t) st)
      | _, Some (File _) => (Raise NotADirectoryError, st)
      | _, None => (Raise FileNotFoundError, st)
      end
  end.

(** [(dir / name).mkdir(exist_ok=True)] below an existing [dir] *)
Definition mkdir_exist_ok (path : string) : F unit := λ st,
  match tree st !! path with
  | Some Dir => (Return (), st)
  | Some (File _) => (Raise FileExistsError, st)
  | None => (Return (), set_tree (<[path := Dir]> (tree st)) st)
  end.

(** [shutil.copy2(project_dir / name, dir / name)] *)
Definition copy2 (name dir : string) : F unit := λ st,
  match tree st !! name with
  | Some (File content) => write_text dir name content st
  | Some Dir => (Raise IsADirectoryError, st)
  | None => (Raise FileNotFoundError, st)
  end.

(** *** [EPUBFixer.organize_epub_structure] *)

(** The body of each of its loops: [if not dest.exists(): shutil.copy2(..)]. *)
Definition copy_if_absent (dir name : string) : F unit := λ st,
  if exists_ (tree st) (joinpath dir name) then (Return (), st)
  else copy2 name dir st.

(** [for f in self.project_dir.glob('*' + suffix): ...] into [dir]. *)
Definition copy_all (suffix dir : string) : F unit :=
  t ← gets tree;
  for_ (copy_if_absent dir) (glob t "" suffix).

Definition organize_epub_structure : F unit :=
  copy_all ".xhtml" "OEBPS/text";;
  copy_all ".css" "OEBPS/styles";;
  copy_all ".woff2" "OEBPS/fonts";;
  for_ (λ img_ext, copy_all img_ext "OEBPS/images")
    [".jpg"; ".jpeg"; ".png"; ".JPEG"; ".PNG"].

(** *** [EPUBFixer.generate_content_opf] *)

(** [book_map.get('book', {})], each field as [.get] finds it. *)
Record book_info : Type := BookInfo {
  title : option string;
  author : option string;
  identifier_text : option string;
  language : option string;
  date : option string;
  rights : option string;
  publisher : option string
}.

Record manifest_item : Type := ManifestItem {
  id : string;
  href : string;
  media_type : string
}.

(** The package document: its [<manifest>] items and the idrefs of its
    [<spine>], in document order. *)
Record opf : Type := Opf {
  info : book_info;
  manifest : list manifest_item;
  spine : list string
}.

(** [sorted] on paths of one directory compares their names. *)
Definition name_le (a b : string) : Prop := Is_true (String.leb a b).

Definition sorted (names : list string) : list string :=
  merge_sort name_le names.

(** [Path.suffix] *)
Fixpoint rfind (c : ascii) (s : string) : option nat :=
  match s with
  | "" => None
  | String d r =>
      match rfind c r with
      | Some i => Some (S i)
      | None => if Ascii.eqb c d then Some 0 else None
      end
  end.

Definition suffix (name : string) : string :=
  match rfind "." name with
  | Some i =>
      if (0 <? i)%nat && (i <? String.length name - 1)%nat then Py.drop i name
      else ""
  | None => ""
  end.

Definition text_id (i : nat) : string := "text" +:+ Py.format_03d (i + 1).

Definition text_files (t : gmap string entry) (oebps_dir : string) : list string :=
  sorted (glob t (joinpath oebps_dir "text") ".xhtml").

Definition text_items (names : list string) : list manifest_item :=
  imap (λ i name,
      ManifestItem (text_id i) ("text/" +:+ name) "application/xhtml+xml") names.

Definition css_items (names : list string) : list manifest_item :=
  imap (λ i name,
      ManifestItem ("css" +:+ Py.str_of_nat (i + 1)) ("styles/" +:+ name) "text/css")
    names.

Definition font_items (names : list string) : list manifest_item :=
  imap (λ i name,
      ManifestItem ("font" +:+ Py.str_of_nat (i + 1)) ("fonts/" +:+ name) "font/woff2")
    names.

Definition image_media_type (name : string) : string :=
  let ext := Py.lower (suffix name) in
  if String.eqb ext ".jpg" || String.eqb ext ".jpeg" then "image/jpeg"
  else "image/png".

Definition img_items (names : list string) : list manifest_item :=
  imap (λ i name,
      ManifestItem ("img" +:+ Py.str_of_nat (i + 1)) ("images/" +:+ name)
        (image_media_type name))
    names.

(** The manifest and the spine that [generate_content_opf] writes out. *)
Definition build_opf (t : gmap string entry) (oebps_dir : string)
    (book : book_info) : opf :=
  let texts := text_files t oebps_dir in
  Opf book
    (text_items texts
     ++ css_items (glob t (joinpath oebps_dir "styles") ".css")
     ++ font_items (glob t (joinpath oebps_dir "fonts") ".woff2")
     ++ img_items (glob t (joinpath oebps_dir "images") ""))
    (imap (λ i _, text_id i) texts).

(** The text of the document. *)
Definition q : string := String (ascii_of_nat 34) "".

Definition attr (name value : string) : string :=
  " " +:+ name +:+ "=" +:+ q +:+ value +:+ q.

Definition dc (tag : string) (value : option string) (fallback : string)
  : string :=
  nl +:+ "    <dc:" +:+ tag +:+ ">" +:+ default fallback value
     +:+ "</dc:" +:+ tag +:+ ">".

Definition render_item (it : manifest_item) : string :=
  nl +:+ "    <item" +:+ attr "id" (id it) +:+ attr "href" (href it)
     +:+ attr "media-type" (media_type it) +:+ "/>".

Definition render_itemref (i : string) : string :=
  nl +:+ "    <itemref" +:+ attr "idref" i +:+ "/>".

Definition concat_map {A : Type} (f : A → string) (l : list A) : string :=
  foldl (λ acc x, acc +:+ f x) "" l.

Definition render (doc : opf) : string :=
  let b := info doc in
  "<?xml" +:+ attr "version" "1.0" +:+ attr "encoding" "UTF-8" +:+ "?>" +:+ nl
  +:+ "<package" +:+ attr "xmlns" "http://www.idpf.org/2007/opf"
  +:+ attr "version" "3.0" +:+ attr "unique-identifier" "BookId" +:+ ">" +:+ nl
  +:+ "  <metadata" +:+ attr "xmlns:dc" "http://purl.org/dc/elements/1.1/" +:+ ">"
  +:+ dc "title" (title b) "Curls & Contemplation"
  +:+ dc "creator" (author b) "MD Warren"
  +:+ nl +:+ "    <dc:identifier" +:+ attr "id" "BookId" +:+ ">"
  +:+ default "urn:uuid:9fa5e2ef-5fd8-4f5b-9077-0b9e856cda3d" (identifier_text b)
  +:+ "</dc:identifier>"
  +:+ dc "language" (language b) "en-US"
  +:+ dc "date" (date b) "2025-01-27"
  +:+ dc "rights" (rights b) "© 2025 MD Warren. All rights reserved."
  +:+ dc "publisher" (publisher b) "MD Warren"
  +:+ dc "subject" None "Beauty"
  +:+ dc "subject" None "Business"
  +:+ dc "subject" None "Personal Development"
  +:+ dc "subject" None "Hairstyling"
  +:+ nl +:+ "    <meta" +:+ attr "property" "dcterms:modified"
  +:+ ">2025-01-27T10:00:00Z</meta>" +:+ nl
  +:+ "  </metadata>" +:+ nl +:+ "  " +:+ nl +:+ "  <manifest>"
  +:+ concat_map render_item (manifest doc) +:+ nl
  +:+ "  </manifest>" +:+ nl +:+ "  " +:+ nl +:+ "  <spine>"
  +:+ concat_map render_itemref (spine doc) +:+ nl
  +:+ "  </spine>" +:+ nl +:+ "</package>".

Definition generate_content_opf (oebps_dir : string) (book : book_info) : F unit :=
  t ← gets tree;
  write_text oebps_dir "content.opf" (render (build_opf t oebps_dir book));;
  log_fix "content.opf" "Created EPUB manifest file".

(** *** [EPUBFixer.create_epub_package] *)

Definition container_xml : string :=
  "<?xml" +:+ attr "version" "1.0" +:+ attr "encoding" "UTF-8" +:+ "?>" +:+ nl
  +:+ "<container" +:+ attr "version" "1.0"
  +:+ attr "xmlns" "urn:oasis:names:tc:opendocument:xmlns:container" +:+ ">" +:+ nl
  +:+ "  <rootfiles>" +:+ nl
  +:+ "    <rootfile" +:+ attr "full-path" "OEBPS/content.opf"
  +:+ attr "media-type" "application/oebps-package+xml" +:+ "/>" +:+ nl
  +:+ "  </rootfiles>" +:+ nl
  +:+ "</container>".

(** [zipfile.ZipFile(epub_file, 'w', ...)]: a new, empty archive replaces
    the file. *)
Definition zip_open : F unit := λ st, (Return (), set_epub (Some []) st).

(** The member that [epub_zip.write(path, arcname, compress_type)] makes
    of the entry at [path]; a directory is stored as an empty member. *)
Definition member_of (t : gmap string entry) (path arc : string)
    (ctype : compress_type) : option zip_member :=
  match t !! path with
  | Some (File content) => Some (ZipMember arc ctype content)
  | Some Dir => Some (ZipMember (arc +:+ "/") ZIP_STORED "")
  | None => None
  end.

(** [epub_zip.write(path, arcname, compress_type)].  [fault] tells on which
    member the archive writer fails, and with which exception. *)
Definition zip_write (fault : string → option exn) (path arc : string)
    (ctype : compress_type) : F unit := λ st,
  match member_of (tree st) path arc ctype with
  | None => (Raise FileNotFoundError, st)
  | Some m =>
      match fault arc with
      | Some e => (Raise e, st)
      | None => (Return (), set_epub (Some (default [] (epub st) ++ [m])) st)
      end
  end.

Definition is_file (t : gmap string entry) (path : string) : bool :=
  match t !! path with
  | Some (File _) => true
  | _ => false
  end.

Definition is_dir (t : gmap string entry) (path : string) : bool :=
  match t !! path with
  | Some Dir => true
  | _ => false
  end.

(** [os.walk(top)] with its inner loop over [files], top-down: the files of
    [top] in the order of its listing, then what the walk finds in each of
    its sub-directories, in the order of the listing.  [depth] bounds the
    nesting of directories. *)
Fixpoint walk_from (depth : nat) (t : gmap string entry) (top : string)
  : list string :=
  match depth with
  | O => []
  | S n =>
      let names := iterdir t top in
      (joinpath top <$> filter (λ name, Is_true (is_file t (joinpath top name))) names)
      ++ (filter (λ name, Is_true (is_dir t (joinpath top name))) names
          ≫= λ name, walk_from n t (joinpath top name))
  end.

(** The files [os.walk(oebps_dir)] reaches, as paths relative to
    [project_dir].  A chain of nested directories is no longer than the
    number of entries; a [top] that is no directory gives nothing. *)
Definition walk_files (t : gmap string entry) (oebps_dir : string) : list string :=
  if is_dir t oebps_dir then walk_from (size t) t oebps_dir else [].

Definition epub_name : string := "curls-and-contemplation.epub".

(** The body of its [try]. *)
Definition package_body (fault : string → option exn) : F (option string) :=
  mkdir_exist_ok "META-INF";;
  write_text "META-INF" "container.xml" container_xml;;
  write_text "" "mimetype" "application/epub+zip";;
  zip_open;;
  zip_write fault "mimetype" "mimetype" ZIP_STORED;;
  zip_write fault "META-INF/container.xml" "META-INF/container.xml" ZIP_DEFLATED;;
  t ← gets tree;
  for_ (λ path, zip_write fault path path ZIP_DEFLATED) (walk_files t "OEBPS");;
  epub_file ← gets (λ st, joinpath (project_dir st) epub_name);
  log_fix "EPUB" ("Created package: " +:+ epub_file);;
  mret (Some epub_file).

Definition create_epub_package (fault : string → option exn) : F (option string) :=
  logger (Info "Step 6: Creating EPUB package...");;
  try_except (package_body fault)
    (λ e, logger (Error "Error creating EPUB package: " e);; mret None).

(** *** Vocabulary of the statements *)

Definition mimetype_member : zip_member :=
  ZipMember "mimetype" ZIP_STORED "application/epub+zip".

Definition container_member : zip_member :=
  ZipMember "META-INF/container.xml" ZIP_DEFLATED container_xml.

(** The members that the files below [OEBPS] give. *)
Definition oebps_members (t : gmap string entry) : list zip_member :=
  omap (λ path, member_of t path path ZIP_DEFLATED) (walk_files t "OEBPS").

(** The archive names that a run of [create_epub_package] is to write. *)
Definition planned (t : gmap string entry) : list string :=
  "mimetype" :: "META-INF/container.xml" :: walk_files t "OEBPS".

(** [st'] has every entry of [st], the same entries directly under
    [project_dir], and nothing else changed. *)
Definition extends (st st' : fixer) : Prop :=
  tree st ⊆ tree st'
  ∧ (∀ path, has_slash path = false → tree st' !! path = tree st !! path)
  ∧ project_dir st' = project_dir st ∧ epub st' = epub st
  ∧ fixes_log st' = fixes_log st ∧ log st' = log st.

(** A phase only adds entries; once it went through it does nothing in any
    later state; once it raised it raises again without a change. *)
Definition settles (c : F unit) : Prop :=
  ∀ st r st', c st = (r, st') →
    extends st st'
    ∧ (r = Return () → ∀ st2, extends st' st2 → c st2 = (Return (), st2))
    ∧ (∀ e, r = Raise e → c st' = (Raise e, st')).

(** The first record that a call of [create_epub_package] sends to the
    logger. *)
Definition step_6 : log_record := Info "Step 6: Creating EPUB package...".

(** The exception that stops [create_epub_package] before it opens the
    archive, if one does: [META-INF] is a file, or [container.xml] or
    [mimetype] is a directory. *)
Definition blocked (t : gmap string entry) : option exn :=
  match t !! "META-INF" with
  | Some (File _) => Some FileExistsError
  | _ =>
      match t !! "META-INF/container.xml" with
      | Some Dir => Some IsADirectoryError
      | _ =>
          match t !! "mimetype" with
          | Some Dir => Some IsADirectoryError
          | _ => None
          end
      end
  end.

(** The exception of the first entry on which the archive writer fails. *)
Fixpoint first_fault (fault : string → option exn) (arcs : list string)
  : option exn :=
  match arcs with
  | [] => None
  | arc :: r =>
      match fault arc with
      | Some e => Some e
      | None => first_fault fault r
      end
  end.

(** The members that come before that entry. *)
Fixpoint written_before (fault : string → option exn) (members : list zip_member)
  : list zip_member :=
  match members with
  | [] => []
  | m :: r =>
      match fault (arcname m) with
      | Some _ => []
      | None => m :: written_before fault r
      end
  end.

(** The members of a complete archive. *)
Definition members (t : gmap string entry) : list zip_member :=
  mimetype_member :: container_member :: oebps_members t.

(** The exception that ends the body of the [try] of [create_epub_package],
    if one does. *)
Definition package_error (fault : string → option exn) (t : gmap string entry)
  : option exn :=
  match blocked t with
  | Some e => Some e
  | None => first_fault fault (planned t)
  end.

(** The number of entries below the directory [top], at any depth. *)
Definition below (t : gmap string entry) (top : string) : nat :=
  size (filter (λ path, String.prefix (joinpath top "") path = true) (dom t)).

(** The project directory once the steps before the archive have run. *)
Definition prepared (t : gmap string entry) : gmap string entry :=
  <["mimetype" := File "application/epub+zip"]>
    (<["META-INF/container.xml" := File container_xml]>
       (<["META-INF" := Dir]> t)).

(** They leave the package tree, the archive and the logs alone. *)
Definition keeps (st st' : fixer) : Prop :=
  (∀ path, path = "OEBPS" ∨ String.prefix "OEBPS/" path = true →
     tree st' !! path = tree st !! path)
  ∧ project_dir st' = project_dir st ∧ epub st' = epub st
  ∧ fixes_log st' = fixes_log st ∧ log st' = log st.

(** The fix that a finished run records. *)
Definition created (st : fixer) : string :=
  "Created package: " +:+ joinpath (project_dir st) epub_name.

End on_a_platform.

Definition is_document (it : manifest_item) : Prop :=
  media_type it = "application/xhtml+xml".

#[export] Instance is_document_dec it : Decision (is_document it).
Proof. unfold is_document. apply _. Defined.

(** Reading a decimal numeral back. *)
Definition parse_nat (s : string) : option nat :=
  Nat.of_uint <$> NilEmpty.uint_of_string s.

End EPUBFixer.

(** * Example packages *)

(** A platform for the examples: the limit of CPython on numerals; the
    examples hold ASCII texts only, so its Unicode tables are not consulted,
    and no directory of theirs that is listed in an order that matters has
    two entries. *)
Definition example_platform : platform :=
  Platform (λ _, false) (λ _, None) (λ s, s) 4300 (λ _, 0).

Module Examples.
Import ManifestAuditor.

(** A package whose spine lists the ordinals 1, 3, 2; every file exists and
    is listed. *)
Definition items_132 : list item :=
  [Item (Some "text001") (Some "text/1-intro.xhtml");
   Item (Some "text003") (Some "text/3-care.xhtml");
   Item (Some "text002") (Some "text/2-tools.xhtml")].

Definition spine_132 : list itemref :=
  [ItemRef (Some "text001"); ItemRef (Some "text003"); ItemRef (Some "text002")].

Definition pkg_132 : package :=
  Package true (Return (items_132, spine_132)) (λ _, true)
    [("", ["content.opf"]);
     ("text", ["1-intro.xhtml"; "2-tools.xhtml"; "3-care.xhtml"])].

(** The same items in the spine order 3, 1, 2. *)
Definition spine_312 : list itemref :=
  [ItemRef (Some "text003"); ItemRef (Some "text001"); ItemRef (Some "text002")].

(** A package with one document, listed and in the spine. *)
Definition items_one : list item :=
  [Item (Some "text001") (Some "text/1-intro.xhtml")].

Definition spine_one : list itemref := [ItemRef (Some "text001")].

Definition pkg_clean : package :=
  Package true (Return (items_one, spine_one)) (λ _, true)
    [("", ["content.opf"]); ("text", ["1-intro.xhtml"])].

(** The same package with one more file on disk, absent from the manifest. *)
Definition pkg_orphan : package :=
  Package true (Return (items_one, spine_one)) (λ _, true)
    [("", ["content.opf"]); ("text", ["1-intro.xhtml"; "notes.txt"])].

(** The same package when the listed document is not on disk. *)
Definition pkg_missing : package :=
  Package true (Return (items_one, spine_one)) (λ _, false)
    [("", ["content.opf"])].

(** A package directory without [OEBPS/content.opf]. *)
Definition pkg_no_manifest : package :=
  Package false (Raise OSError) (λ _, false) [].

End Examples.

Module FixerExamples.
Import EPUBFixer.

(** A project whose package tree holds the manifest document and two empty
    directories. *)
Definition tree_small : gmap string entry :=
  list_to_map
    [("OEBPS", Dir); ("OEBPS/text", Dir); ("OEBPS/styles", Dir);
     ("OEBPS/content.opf", File "<package/>")].

Definition fixer_small : fixer := Fixer "/book" tree_small None [] [].

(** An archive writer that fails on the manifest document, and one that
    never fails. *)
Definition fault_on_opf (arc : string) : option exn :=
  if String.eqb arc "OEBPS/content.opf" then Some OSError else None.

Definition no_fault (arc : string) : option exn := None.

(** A package tree with a stylesheet, and a writer that fails on it. *)
Definition tree_styled : gmap string entry :=
  list_to_map
    [("OEBPS", Dir); ("OEBPS/styles", Dir); ("OEBPS/styles/s.css", File "p {}");
     ("OEBPS/content.opf", File "<package/>")].

Definition fixer_styled : fixer := Fixer "/book" tree_styled None [] [].

Definition fault_on_css (arc : string) : option exn :=
  if String.eqb arc "OEBPS/styles/s.css" then Some OSError else None.

(** A project with loose files beside a package tree that already holds an
    older copy of one of them. *)
Definition tree_loose : gmap string entry :=
  list_to_map
    [("2-tools.xhtml", File "new"); ("style.css", File "p {}");
     ("cover.PNG", File "png"); ("notes.txt", File "n");
     ("OEBPS", Dir); ("OEBPS/text", Dir); ("OEBPS/styles", Dir);
     ("OEBPS/images", Dir); ("OEBPS/fonts", Dir);
     ("OEBPS/text/2-tools.xhtml", File "old");
     ("OEBPS/text/10-end.xhtml", File "z")].

Definition fixer_loose : fixer := Fixer "/book" tree_loose None [] [].

End FixerExamples.

(** * Properties *)

(** ** The manifest audit *)

Import ManifestAuditor.

(** ** Tactics for the audit *)

Ltac run_audit :=
  unfold mbind, stateful_bind, mret, stateful_ret, lift, gets, print,
    issues_append, issues_extend; simpl.

Lemma prefix_empty s : String.prefix "" s = true.
Proof. by destruct s. Qed.

Ltac defect_text :=
  apply Forall_singleton; unfold is_defect, order_issue, orphan_issue; simpl;
  rewrite ?prefix_empty; reflexivity.

(** ** The outcome of loops *)

Lemma for_each_app {A S : Type} (body : S → A → outcome S) (l1 l2 : list A) (s : S) :
  for_each body (l1 ++ l2) s = s' ← for_each body l1 s; for_each body l2 s'.
Proof.
  revert s. induction l1 as [|x l1 IH]; intros s; simpl; [done|].
  destruct (body s x) as [s'|e]; simpl; [apply IH | done].
Qed.

Lemma for_each_invariant {A S : Type} (P : S → Prop) (body : S → A → outcome S)
    (l : list A) (s r : S) :
  (∀ s x s', P s → body s x = Return s' → P s') →
  P s → for_each body l s = Return r → P r.
Proof.
  intros Hstep. revert s. induction l as [|x l IH]; intros s Hs; simpl.
  - by intros [= <-].
  - destruct (body s x) as [s'|e] eqn:Hb; simpl; [|done].
    apply IH. by eapply Hstep.
Qed.

(** ** What each check adds to [self.issues] *)

Lemma print_all_issues f xs st :
  ∃ out, print_all f xs st = (Return (), Auditor (issues st) out).
Proof.
  unfold print_all. revert st. induction xs as [|x xs IH]; intros st; simpl.
  - exists (stdout st). by destruct st.
  - destruct (IH (Auditor (issues st) (stdout st ++ [f x]))) as [out Hout].
    exists out. unfold mbind, stateful_bind. simpl.  apply Hout.
Qed.

Ltac run_print_all :=
  match goal with
  | |- context [print_all ?f ?xs ?s] =>
      let out := fresh "out" in
      destruct (print_all_issues f xs s) as [out ->]; simpl
  end.

Section audit.
Context {pf : platform}.

Lemma check_manifest_files_issues pkg items st :
  ∃ out, check_manifest_files pkg items st =
    match missing_files pkg items with
    | Return m => (Return (), Auditor (issues st ++ m) out)
    | Raise e => (Raise e, Auditor (issues st) out)
    end.
Proof.
  unfold check_manifest_files. run_audit.
  destruct (missing_files pkg items) as [[|x m]|e]; simpl.
  - rewrite app_nil_r. eauto.
  - match goal with |- context [print_all ?f ?xs ?s] =>
      destruct (print_all_issues f xs s) as [out ->] end.
    simpl. eauto.
  - eauto.
Qed.

Lemma check_orphan_files_issues pkg items st :
  ∃ out, check_orphan_files pkg items st =
    (Return (), Auditor (issues st ++ orphan_summary (orphan_files pkg items)) out).
Proof.
  unfold check_orphan_files, orphan_summary. run_audit.
  destruct (orphan_files pkg items) as [|x m]; simpl.
  - rewrite app_nil_r. eauto.
  - match goal with |- context [print_all ?f ?xs ?s] =>
      destruct (print_all_issues f xs s) as [out ->] end.
    simpl. eauto.
Qed.

Lemma check_spine_integrity_issues items spine st :
  ∃ out, check_spine_integrity items spine st =
    match spine_issues items spine with
    | Return (u, _) =>
        match reading_order_issues items spine with
        | Return ord => (Return (), Auditor (issues st ++ u ++ ord) out)
        | Raise e => (Raise e, Auditor (issues st ++ u) out)
        end
    | Raise e => (Raise e, Auditor (issues st) out)
    end.
Proof.
  unfold check_spine_integrity. run_audit.
  destruct (spine_issues items spine) as [[u n]|e]; simpl; [|eauto].
  destruct u as [|x u]; simpl; try run_print_all;
    (destruct (reading_order_issues items spine) as [ord|e]; simpl;
     [destruct ord as [|y ord]; simpl; try run_print_all|]);
    rewrite ?app_nil_r, <- ?app_assoc; eauto.
Qed.

(** ** [audit] as a whole *)

Lemma audit_with_manifest pkg items spine st :
  opf_exists pkg = true → opf_parse pkg = Return (items, spine) →
  ∃ out, audit pkg st =
    match missing_files pkg items with
    | Raise e => (Raise e, Auditor (issues st) out)
    | Return m =>
        let found := issues st ++ m ++ orphan_summary (orphan_files pkg items) in
        match spine_issues items spine with
        | Raise e => (Raise e, Auditor found out)
        | Return (u, _) =>
            match reading_order_issues items spine with
            | Raise e => (Raise e, Auditor (found ++ u) out)
            | Return ord =>
                (Return (bool_decide (length (found ++ u ++ ord) = 0)),
                 Auditor (found ++ u ++ ord) out)
            end
        end
    end.
Proof.
  intros Hex Hparse. unfold audit. rewrite Hex, Hparse. run_audit.
  match goal with |- context [check_manifest_files ?p ?i ?s] =>
    destruct (check_manifest_files_issues p i s) as [out1 ->] end.
  destruct (missing_files pkg items) as [m|e]; simpl; [|eauto].
  match goal with |- context [check_orphan_files ?p ?i ?s] =>
    destruct (check_orphan_files_issues p i s) as [out2 ->] end.
  simpl.
  match goal with |- context [check_spine_integrity ?i ?sp ?s] =>
    destruct (check_spine_integrity_issues i sp s) as [out3 ->] end.
  simpl. rewrite <- !app_assoc.
  destruct (spine_issues items spine) as [[u n]|e]; simpl; [|eauto].
  destruct (reading_order_issues items spine) as [ord|e]; simpl; eauto.
Qed.

Lemma no_manifest_run pkg st :
  opf_exists pkg = false →
  audit pkg st = (Return false, Auditor (issues st ++ [critical]) (stdout st ++ [banner])).
Proof. intros H. unfold audit. rewrite H. reflexivity. Qed.

(** C1 (as amended): on a new auditor and a package whose manifest exists and
    parses, and whose checks do not raise, [audit] returns; it returns [True]
    exactly when the missing-file list, the orphan list, the list of
    unresolved idrefs and the reading-order list are all empty. *)
Theorem audit_verdict pkg items spine m u n ord :
  opf_exists pkg = true →
  opf_parse pkg = Return (items, spine) →
  missing_files pkg items = Return m →
  spine_issues items spine = Return (u, n) →
  reading_order_issues items spine = Return ord →
  ∃ b, (audit pkg fresh).1 = Return b
       ∧ (b = true ↔ m = [] ∧ orphan_files pkg items = [] ∧ u = [] ∧ ord = []).
Proof.
  intros Hex Hparse Hm Hu Hord.
  destruct (audit_with_manifest pkg items spine fresh Hex Hparse) as [out ->].
  rewrite Hm, Hu, Hord. simpl. eexists; split; [done|].
  rewrite bool_decide_eq_true, !length_app.
  unfold orphan_summary.
  destruct m, (orphan_files pkg items), u, ord; simpl;
    (split; [intros Hlen; first [done | lia] | intros (? & ? & ? & ?); done]).
Qed.

(** ** The texts of the defects *)

Lemma missing_files_defects pkg items m :
  missing_files pkg items = Return m → defects m.
Proof.
  apply (for_each_invariant defects); [|by constructor].
  intros s it s' Hs. destruct (item_href it) as [href|]; [|done].
  destruct (href_exists pkg href); intros [= <-]; [done|].
  apply Forall_app. split; [done|]. defect_text.
Qed.

Lemma spine_issues_defects items spine u n :
  spine_issues items spine = Return (u, n) → defects u.
Proof.
  intros H.
  apply (for_each_invariant (λ s, defects s.1) _ _ _ _) in H; [done| |by constructor].
  intros [found k] [i r] s' Hs. simpl in *.
  destruct (manifest_ids items !! idref r) as [[href|]|]; intros [= <-]; simpl;
    [done|].
  apply Forall_app. split; [done|]. defect_text.
Qed.

Lemma reading_order_issues_defects items spine ord :
  reading_order_issues items spine = Return ord → defects ord.
Proof.
  unfold reading_order_issues.
  destruct (for_each _ spine _) as [[found prev]|e] eqn:H; [|done].
  intros [= <-].
  apply (for_each_invariant (λ s, defects s.1) _ _ _ _) in H; [done| |by constructor].
  intros [f p] r s' Hs. unfold reading_order_step. simpl in *.
  destruct (manifest_ids items !! idref r) as [[href|]|]; [| |by intros [= <-]]; [|done].
  destruct (numbered href) as [[n|]|e]; simpl; [| by intros [= <-] | done].
  intros [= <-]. simpl. destruct (n <? p)%Z; [|done].
  apply Forall_app. split; [done|]. defect_text.
Qed.

Lemma orphan_summary_defects orphans : defects (orphan_summary orphans).
Proof. destruct orphans; [constructor | defect_text]. Qed.

Lemma audit_adds_defects pkg st :
  opf_exists pkg = true →
  ∃ added, issues (audit pkg st).2 = issues st ++ added ∧ defects added.
Proof.
  intros Hex. destruct (opf_parse pkg) as [[items spine]|e0] eqn:Hparse.
  - destruct (audit_with_manifest pkg items spine st Hex Hparse) as [out ->].
    destruct (missing_files pkg items) as [m|e] eqn:Hm; simpl.
    2:{ exists []. rewrite app_nil_r. split; [done | constructor]. }
    pose proof (missing_files_defects _ _ _ Hm) as Dm.
    pose proof (orphan_summary_defects (orphan_files pkg items)) as Do.
    destruct (spine_issues items spine) as [[u n]|e] eqn:Hu; simpl.
    2:{ eexists; split; [done|]. by apply Forall_app. }
    pose proof (spine_issues_defects _ _ _ _ Hu) as Du.
    destruct (reading_order_issues items spine) as [ord|e] eqn:Hord; simpl.
    + pose proof (reading_order_issues_defects _ _ _ Hord) as Dord.
      exists (m ++ orphan_summary (orphan_files pkg items) ++ u ++ ord).
      split; [by rewrite <- !app_assoc|]. by repeat (apply Forall_app; split).
    + exists (m ++ orphan_summary (orphan_files pkg items) ++ u).
      split; [by rewrite <- !app_assoc|]. by repeat (apply Forall_app; split).
  - exists []. split; [|constructor]. unfold audit. rewrite Hex, Hparse.
    simpl. by rewrite app_nil_r.
Qed.

(** C2 (as amended): without [content.opf], [audit] prints its banner, adds
    the single entry [CRITICAL: content.opf not found] to [self.issues], the
    list that the checks fill as well, and returns [False]; none of the three
    checks runs.  No entry that a run with the manifest present adds is that
    text. *)
Theorem audit_without_manifest pkg st :
  opf_exists pkg = false →
  audit pkg st
  = (Return false, Auditor (issues st ++ [critical]) (stdout st ++ [banner]))
  ∧ ∀ pkg' st', opf_exists pkg' = true →
      ∃ added, issues (audit pkg' st').2 = issues st' ++ added
               ∧ Forall (λ x, x ≠ critical) added.
Proof.
  intros H. split; [by apply no_manifest_run|].
  intros pkg' st' Hex. destruct (audit_adds_defects pkg' st' Hex) as (added & -> & D).
  exists added. split; [done|]. eapply Forall_impl; [exact D|].
  intros x Hx ->. done.
Qed.

(** ** The reading-order loop *)

Lemma reading_order_loop ids spine os found prev_num :
  Forall2 (reads ids) spine os →
  ∃ last, for_each (reading_order_step ids) spine (found, prev_num)
          = Return (found ++ (issue_of <$> drops prev_num (omap id os)), last).
Proof.
  intros H. revert found prev_num.
  induction H as [|r o spine os Hr _ IH]; intros found prev_num; simpl.
  - exists prev_num. by rewrite app_nil_r.
  - destruct o as [[href n]|]; simpl in *.
    + destruct Hr as [-> ->]. simpl.
      destruct (IH (if (n <? prev_num)%Z
                    then found ++ [order_issue href n prev_num] else found) n)
        as [last ->].
      exists last. destruct (n <? prev_num)%Z; simpl; [|done].
      by rewrite <- app_assoc.
    + destruct (IH found prev_num) as [last Hlast]. exists last.
      destruct Hr as [-> | (href & -> & ->)]; simpl; exact Hlast.
Qed.

Lemma missing_files_all_exist pkg items :
  Forall (λ it, ∃ href, item_href it = Some href ∧ href_exists pkg href = true) items →
  missing_files pkg items = Return [].
Proof.
  unfold missing_files. generalize (@nil string).
  intros acc H. revert acc.
  induction H as [|it items (href & Hhref & Hex) _ IH]; intros acc; simpl; [done|].
  rewrite Hhref, Hex. apply IH.
Qed.

(** C9 (as amended): when every manifest href is on disk and the three spine
    items resolve to hrefs with the ordinals 1, 3 and 2, in this order, the
    existence check and the idref check find nothing and the reading-order
    check finds exactly one issue, the third item after #3; apart from the
    orphan summary that issue is all a new auditor has in [self.issues]
    after [audit], and with it there [audit] returns [False]. *)
Theorem spine_132_one_reading_order_issue pkg items r1 r2 r3 h1 h2 h3 :
  opf_exists pkg = true →
  opf_parse pkg = Return (items, [r1; r2; r3]) →
  Forall (λ it, ∃ href, item_href it = Some href ∧ href_exists pkg href = true) items →
  reads (manifest_ids items) r1 (Some (h1, 1%Z)) →
  reads (manifest_ids items) r2 (Some (h2, 3%Z)) →
  reads (manifest_ids items) r3 (Some (h3, 2%Z)) →
  missing_files pkg items = Return []
  ∧ (∃ n, spine_issues items [r1; r2; r3] = Return ([], n))
  ∧ reading_order_issues items [r1; r2; r3] = Return [order_issue h3 2 3]
  ∧ issues (audit pkg fresh).2
    = orphan_summary (orphan_files pkg items) ++ [order_issue h3 2 3]
  ∧ (audit pkg fresh).1 = Return false.
Proof.
  intros Hex Hparse Hfiles [Hr1 Hn1] [Hr2 Hn2] [Hr3 Hn3].
  assert (missing_files pkg items = Return []) as Hm
    by by apply missing_files_all_exist.
  assert (∃ n, spine_issues items [r1; r2; r3] = Return ([], n)) as [n Hu].
  { unfold spine_issues. simpl. rewrite Hr1. simpl. rewrite Hr2. simpl.
    rewrite Hr3. simpl. eauto. }
  assert (reading_order_issues items [r1; r2; r3] = Return [order_issue h3 2 3])
    as Hord.
  { unfold reading_order_issues. simpl. rewrite Hr1. simpl. rewrite Hn1. simpl.
    rewrite Hr2. simpl. rewrite Hn2. simpl. rewrite Hr3. simpl. rewrite Hn3.
    reflexivity. }
  split; [done|]. split; [by exists n|]. split; [done|].
  destruct (audit_with_manifest pkg items [r1; r2; r3] fresh Hex Hparse) as [out ->].
  rewrite Hm, Hu, Hord. simpl. split; [done|].
  f_equal. apply bool_decide_eq_false. rewrite length_app. simpl. lia.
Qed.

(** C10: the reading-order loop compares each ordinal it reads with the one
    it read just before, whether or not that one was reported, and with
    nothing else: its issues are the decreases between successive ordinals,
    starting from 0; items it passes over leave the baseline as it is. *)
Theorem reading_order_compares_with_previous items spine os :
  Forall2 (reads (manifest_ids items)) spine os →
  reading_order_issues items spine
  = Return (issue_of <$> drops 0 (omap id os)).
Proof.
  intros H. unfold reading_order_issues.
  destruct (reading_order_loop _ _ _ [] 0%Z H) as [last ->]. reflexivity.
Qed.

End audit.

(** ** The audit of the example packages *)

Section audit_examples.
#[local] Existing Instance example_platform.

Lemma audit_verdict_witness :
  ∃ b, (audit Examples.pkg_132 fresh).1 = Return b
       ∧ (b = true ↔
            @nil string = []
            ∧ orphan_files Examples.pkg_132 Examples.items_132 = []
            ∧ @nil string = []
            ∧ ["Reading order issue: text/2-tools.xhtml (#2) after #3"] = []).
Proof.
  apply (audit_verdict Examples.pkg_132 Examples.items_132 Examples.spine_132
           [] [] 3 ["Reading order issue: text/2-tools.xhtml (#2) after #3"]);
    vm_compute; reflexivity.
Defined.

(** C1 (as stated) fails: two packages with the same manifest and no missing
    file, no unresolved idref and no reading-order issue; the one without an
    orphan passes, the one with an orphan file does not. *)
Lemma audit_orphan_changes_verdict :
  missing_files Examples.pkg_orphan Examples.items_one = Return []
  ∧ spine_issues Examples.items_one Examples.spine_one = Return ([], 1)
  ∧ reading_order_issues Examples.items_one Examples.spine_one = Return []
  ∧ orphan_files Examples.pkg_orphan Examples.items_one = ["text/notes.txt"]
  ∧ (audit Examples.pkg_orphan fresh).1 = Return false
  ∧ orphan_files Examples.pkg_clean Examples.items_one = []
  ∧ (audit Examples.pkg_clean fresh).1 = Return true.
Proof. vm_compute. repeat split. Qed.

Lemma audit_without_manifest_witness :
  audit Examples.pkg_no_manifest fresh
  = (Return false, Auditor ([] ++ [critical]) ([] ++ [banner]))
  ∧ ∀ pkg' st', opf_exists pkg' = true →
      ∃ added, issues (audit pkg' st').2 = issues st' ++ added
               ∧ Forall (λ x, x ≠ critical) added.
Proof. apply (audit_without_manifest Examples.pkg_no_manifest fresh). reflexivity. Defined.

(** C2 (as stated) fails: the entry for the absent manifest goes to
    [self.issues], where the missing-file defect of another run is as well;
    on one auditor the two end up side by side. *)
Lemma critical_shares_the_issues_list :
  issues (audit Examples.pkg_no_manifest fresh).2 = [critical]
  ∧ issues (audit Examples.pkg_missing fresh).2
    = ["Missing: text/1-intro.xhtml (referenced in manifest)"]
  ∧ issues (audit Examples.pkg_no_manifest (audit Examples.pkg_missing fresh).2).2
    = ["Missing: text/1-intro.xhtml (referenced in manifest)"; critical].
Proof. vm_compute. repeat split. Qed.

Lemma spine_132_one_reading_order_issue_witness :
  missing_files Examples.pkg_132 Examples.items_132 = Return []
  ∧ (∃ n, spine_issues Examples.items_132 Examples.spine_132 = Return ([], n))
  ∧ reading_order_issues Examples.items_132 Examples.spine_132
    = Return ["Reading order issue: text/2-tools.xhtml (#2) after #3"]
  ∧ issues (audit Examples.pkg_132 fresh).2
    = orphan_summary (orphan_files Examples.pkg_132 Examples.items_132)
      ++ ["Reading order issue: text/2-tools.xhtml (#2) after #3"]
  ∧ (audit Examples.pkg_132 fresh).1 = Return false.
Proof.
  apply (spine_132_one_reading_order_issue Examples.pkg_132 Examples.items_132
           (ItemRef (Some "text001")) (ItemRef (Some "text003"))
           (ItemRef (Some "text002"))
           "text/1-intro.xhtml" "text/3-care.xhtml" "text/2-tools.xhtml").
  - reflexivity.
  - reflexivity.
  - repeat constructor; eexists; split; reflexivity.
  - split; vm_compute; reflexivity.
  - split; vm_compute; reflexivity.
  - split; vm_compute; reflexivity.
Defined.

(** C9 (as stated) fails: on the package with the ordinals 1, 3, 2, where no
    file is missing, no idref is unresolved and no file is an orphan, the
    reading-order issue alone makes [audit] return [False]. *)
Lemma reading_order_issue_fails_audit :
  missing_files Examples.pkg_132 Examples.items_132 = Return []
  ∧ spine_issues Examples.items_132 Examples.spine_132 = Return ([], 3)
  ∧ orphan_files Examples.pkg_132 Examples.items_132 = []
  ∧ reading_order_issues Examples.items_132 Examples.spine_132
    = Return ["Reading order issue: text/2-tools.xhtml (#2) after #3"]
  ∧ (audit Examples.pkg_132 fresh).1 = Return false.
Proof. vm_compute. repeat split. Qed.

(** The spine with the ordinals 3, 1, 2 gets one issue, for the fall from 3
    to 1; measured against the largest ordinal so far it would get two. *)
Lemma reading_order_compares_with_previous_witness :
  reading_order_issues Examples.items_132 Examples.spine_312
  = Return ["Reading order issue: text/1-intro.xhtml (#1) after #3"]
  ∧ length (drops_below_max 0
      [("text/3-care.xhtml", 3%Z); ("text/1-intro.xhtml", 1%Z);
       ("text/2-tools.xhtml", 2%Z)]) = 2.
Proof.
  split; [|reflexivity].
  apply (reading_order_compares_with_previous Examples.items_132 Examples.spine_312
           [Some ("text/3-care.xhtml", 3%Z); Some ("text/1-intro.xhtml", 1%Z);
            Some ("text/2-tools.xhtml", 2%Z)]).
  repeat constructor; vm_compute; reflexivity.
Defined.

End audit_examples.

(** ** The EPUB fixer *)

Import EPUBFixer.

(** ** Decimal numerals *)

Lemma parse_str_of_nat n : parse_nat (Py.str_of_nat n) = Some n.
Proof.
  unfold parse_nat, Py.str_of_nat. rewrite NilEmpty.usu. simpl.
  by rewrite Unsigned.of_to.
Qed.

Lemma parse_zeros k s : parse_nat (Py.zeros k +:+ s) = parse_nat s.
Proof.
  induction k as [|k IH]; [done|].
  unfold parse_nat in *. simpl.
  destruct (NilEmpty.uint_of_string (Py.zeros k +:+ s)) as [d|],
    (NilEmpty.uint_of_string s) as [d'|]; simplify_eq/=; [|done].
  f_equal. by etrans.
Qed.

Lemma parse_format_03d n : parse_nat (Py.format_03d n) = Some n.
Proof. unfold Py.format_03d. by rewrite parse_zeros, parse_str_of_nat. Qed.

#[local] Instance str_of_nat_inj : Inj (=) (=) Py.str_of_nat.
Proof.
  intros n m H. apply (f_equal parse_nat) in H.
  rewrite !parse_str_of_nat in H. by simplify_eq.
Qed.

#[local] Instance format_03d_inj : Inj (=) (=) Py.format_03d.
Proof.
  intros n m H. apply (f_equal parse_nat) in H.
  rewrite !parse_format_03d in H. by simplify_eq.
Qed.

Lemma append_inj_r (p s1 s2 : string) : p +:+ s1 = p +:+ s2 → s1 = s2.
Proof. induction p as [|c p IH]; simpl; [done|]. intros [= H]. by apply IH. Qed.

Section manifest.
Context {pf : platform}.

(** ** The identifiers of a manifest *)

Lemma ids_of_imap (f : nat → string) (mk : nat → string → manifest_item) names :
  (∀ i name, id (mk i name) = f i) →
  id <$> imap mk names = f <$> seq 0 (length names).
Proof.
  intros H. rewrite fmap_imap, <- imap_seq_0.
  apply imap_ext. intros i name _. apply H.
Qed.

Lemma numbered_ids_NoDup (pre : string) (fmt : nat → string) n :
  Inj (=) (=) fmt → NoDup ((λ i, pre +:+ fmt (i + 1)) <$> seq 0 n).
Proof.
  intros Hinj. apply NoDup_fmap_2; [|apply NoDup_seq].
  intros i j H. apply append_inj_r, Hinj in H. lia.
Qed.

Lemma numbered_ids_head (c : ascii) (pre : string) (fmt : nat → string) n x :
  x ∈ (λ i, String c pre +:+ fmt (i + 1)) <$> seq 0 n → ∃ r, x = String c r.
Proof. intros (i & -> & _)%list_elem_of_fmap. simpl. eauto. Qed.

Lemma manifest_ids_by_kind t oebps_dir book :
  ∃ n1 n2 n3 n4,
    id <$> manifest (build_opf t oebps_dir book)
    = ((λ i, "text" +:+ Py.format_03d (i + 1)) <$> seq 0 n1)
      ++ ((λ i, "css" +:+ Py.str_of_nat (i + 1)) <$> seq 0 n2)
      ++ ((λ i, "font" +:+ Py.str_of_nat (i + 1)) <$> seq 0 n3)
      ++ ((λ i, "img" +:+ Py.str_of_nat (i + 1)) <$> seq 0 n4).
Proof.
  do 4 eexists. unfold build_opf. simpl. rewrite !fmap_app.
  unfold text_items, css_items, font_items, img_items.
  repeat f_equal; by apply ids_of_imap.
Qed.

(** C6: whatever the four directories hold, the identifiers of the manifest
    that [generate_content_opf] builds are pairwise distinct. *)
Theorem manifest_ids_distinct (t : gmap string entry) (oebps_dir : string)
    (book : book_info) :
  NoDup (id <$> manifest (build_opf t oebps_dir book)).
Proof.
  destruct (manifest_ids_by_kind t oebps_dir book) as (n1 & n2 & n3 & n4 & ->).
  repeat (apply NoDup_app; split; [by apply numbered_ids_NoDup; apply _|split]);
    try (by apply numbered_ids_NoDup; apply _);
    intros x [r ->]%numbered_ids_head Hx;
    repeat (apply elem_of_app in Hx as [Hx|Hx]);
    apply numbered_ids_head in Hx as [r' Hx]; discriminate Hx.
Qed.

(** ** The order of names *)

Lemma ascii_compare_refl (a : ascii) : Ascii.compare a a = Eq.
Proof. unfold Ascii.compare. apply N.compare_refl. Qed.

Lemma ascii_compare_lt_trans (a b c : ascii) :
  Ascii.compare a b = Lt → Ascii.compare b c = Lt → Ascii.compare a c = Lt.
Proof. unfold Ascii.compare. rewrite !N.compare_lt_iff. lia. Qed.

Lemma string_compare_le_trans (a b c : string) :
  String.compare a b ≠ Gt → String.compare b c ≠ Gt → String.compare a c ≠ Gt.
Proof.
  revert b c. induction a as [|x a IH]; intros [|y b] [|z c]; simpl; try done.
  destruct (Ascii.compare x y) eqn:Hxy; [| |done].
  - apply Ascii.compare_eq_iff in Hxy as ->.
    destruct (Ascii.compare y z); [apply IH|done..].
  - destruct (Ascii.compare y z) eqn:Hyz; [| |done].
    + apply Ascii.compare_eq_iff in Hyz as ->. by rewrite Hxy.
    + by rewrite (ascii_compare_lt_trans x y z).
Qed.

Lemma name_le_compare a b : name_le a b ↔ String.compare a b ≠ Gt.
Proof. unfold name_le, String.leb. by destruct (String.compare a b). Qed.

#[local] Instance name_le_trans : Transitive name_le.
Proof.
  intros a b c. rewrite !name_le_compare. apply string_compare_le_trans.
Qed.

#[local] Instance name_le_total : Total name_le.
Proof.
  intros a b. unfold name_le.
  destruct (String.leb_total a b) as [-> | ->]; [by left | by right].
Qed.

(** ** The spine *)

Lemma filter_all {A} (P : A → Prop) `{∀ x, Decision (P x)} (l : list A) :
  Forall P l → filter P l = l.
Proof.
  induction 1 as [|x l Hx _ IH]; [done|].
  by rewrite filter_cons_True, IH.
Qed.

Lemma filter_none {A} (P : A → Prop) `{∀ x, Decision (P x)} (l : list A) :
  Forall (λ x, ¬ P x) l → filter P l = [].
Proof.
  induction 1 as [|x l Hx _ IH]; [done|].
  by rewrite filter_cons_False.
Qed.

Lemma Forall_imap {A B} (P : B → Prop) (f : nat → A → B) (l : list A) :
  (∀ i x, P (f i x)) → Forall P (imap f l).
Proof.
  intros H. apply Forall_forall. intros y (i & x & -> & _)%elem_of_lookup_imap.
  apply H.
Qed.

Lemma documents_of_manifest t oebps_dir book :
  filter is_document (manifest (build_opf t oebps_dir book))
  = text_items (text_files t oebps_dir).
Proof.
  unfold build_opf. simpl. rewrite !filter_app.
  rewrite (filter_all is_document (text_items _)) by by apply Forall_imap.
  rewrite (filter_none is_document (css_items _)) by by apply Forall_imap.
  rewrite (filter_none is_document (font_items _)) by by apply Forall_imap.
  rewrite (filter_none is_document (img_items _)).
  - by rewrite !app_nil_r.
  - apply Forall_imap. intros i name. unfold is_document, image_media_type. simpl.
    by destruct (_ || _).
Qed.

(** C7: the spine that [generate_content_opf] declares is, item for item and
    in the same order, the identifiers of the document items of its
    manifest; these items are the [.xhtml] files of the text directory in
    sorted order of their names. *)
Theorem spine_is_sorted_documents (t : gmap string entry) (oebps_dir : string)
    (book : book_info) :
  spine (build_opf t oebps_dir book)
  = id <$> filter is_document (manifest (build_opf t oebps_dir book))
  ∧ href <$> filter is_document (manifest (build_opf t oebps_dir book))
    = (λ name, "text/" +:+ name) <$> text_files t oebps_dir
  ∧ StronglySorted name_le (text_files t oebps_dir)
  ∧ text_files t oebps_dir ≡ₚ glob t (joinpath oebps_dir "text") ".xhtml".
Proof.
  rewrite documents_of_manifest. unfold text_items. repeat split.
  - simpl. rewrite fmap_imap. by apply imap_ext.
  - rewrite fmap_imap. rewrite <- (imap_const (λ name, "text/" +:+ name)).
    by apply imap_ext.
  - apply StronglySorted_merge_sort; apply _.
  - apply merge_sort_Permutation.
Qed.

(** C4: [normalize_filename] is a function of its argument alone, and it
    takes [My File_final.xhtml] to [my-file.xhtml]: the suffix goes, the
    letters become lower case, the space becomes a hyphen. *)
Theorem normalize_filename_my_file :
  normalize_filename "My File_final.xhtml" = "my-file.xhtml"
  ∧ Py.replace "My File_final.xhtml" "_final" "" = "My File.xhtml"
  ∧ Py.lower "My File.xhtml" = "my file.xhtml"
  ∧ Py.replace "my file.xhtml" " " "-" = "my-file.xhtml"
  ∧ ∀ a b : string, a = b → normalize_filename a = normalize_filename b.
Proof. repeat split; try reflexivity. by intros a b ->. Qed.

(** [generate_content_opf] writes the text of that document. *)
Lemma generate_content_opf_writes oebps_dir book st st' :
  generate_content_opf oebps_dir book st = (Return (), st') →
  tree st' !! joinpath oebps_dir "content.opf"
  = Some (File (render (build_opf (tree st) oebps_dir book))).
Proof.
  unfold generate_content_opf, mbind, stateful_bind, gets, write_text, log_fix, logger.
  simpl.
  destruct (tree st !! joinpath oebps_dir "content.opf") as [[?|]|];
    destruct oebps_dir as [|c d]; try destruct (tree st !! String c d) as [[?|]|];
    simpl; intros [= <-]; simpl; try done; apply lookup_insert_eq.
Qed.

End manifest.

(** ** The manifest of the example project *)

Section manifest_examples.
#[local] Existing Instance example_platform.

(** The manifest of the example project: the documents in the order of
    their names, which puts [10-end] before [2-tools]. *)
Example build_opf_loose :
  manifest (build_opf FixerExamples.tree_loose "OEBPS"
              (BookInfo None None None None None None None))
  = [ManifestItem "text001" "text/10-end.xhtml" "application/xhtml+xml";
     ManifestItem "text002" "text/2-tools.xhtml" "application/xhtml+xml"]
  ∧ spine (build_opf FixerExamples.tree_loose "OEBPS"
             (BookInfo None None None None None None None))
    = ["text001"; "text002"].
Proof. vm_compute. repeat split. Qed.

End manifest_examples.

Section organize.
Context {pf : platform}.

(** ** Copying into the package tree *)

Lemma extends_refl st : extends st st.
Proof. by repeat split. Qed.

Lemma extends_trans st1 st2 st3 : extends st1 st2 → extends st2 st3 → extends st1 st3.
Proof.
  intros (? & H12 & ? & ? & ? & ?) (? & H23 & ? & ? & ? & ?).
  repeat split; try congruence; [by etrans|].
  intros path Hp. by rewrite H23, H12.
Qed.

Lemma has_slash_app (a b : string) : has_slash (a +:+ b) = has_slash a || has_slash b.
Proof. induction a as [|c a IH]; simpl; [done|]. by rewrite IH, orb_assoc. Qed.

Lemma has_slash_joinpath dir name : dir ≠ "" → has_slash (joinpath dir name) = true.
Proof.
  destruct dir as [|c dir]; [done|]. intros _. unfold joinpath.
  rewrite !has_slash_app. simpl. by rewrite orb_true_r.
Qed.

Lemma child_name_top path name : child_name "" path = Some name → path = name ∧ has_slash path = false.
Proof.
  unfold child_name. simpl. rewrite prefix_empty. 
  destruct path as [|c path]; [done|]. simpl.
  destruct (Ascii.eqb c "/" || has_slash path) eqn:H; [done|]. by intros [= <-].
Qed.

Lemma top_listing_stable st st' suffix :
  extends st st' → glob (tree st') "" suffix = glob (tree st) "" suffix.
Proof.
  intros (_ & Htop & _). unfold glob, iterdir. do 3 f_equal.
  apply set_eq. intros name. rewrite !elem_of_set_omap.
  split; intros (path & Hin & Hname); exists path; (split; [|done]);
    destruct (child_name_top _ _ Hname) as [_ Hs];
    apply elem_of_dom; apply elem_of_dom in Hin;
    [rewrite <- Htop | rewrite Htop]; done.
Qed.

Lemma set_tree_extends st path e :
  tree st !! path = None → has_slash path = true →
  extends st (set_tree (<[path := e]> (tree st)) st).
Proof.
  intros Hnone Hslash. repeat split; simpl.
  - by apply insert_subseteq.
  - intros p Hp. apply lookup_insert_ne. intros ->. congruence.
Qed.

(** One turn of a copying loop. *)
Lemma copy_if_absent_run dir name st r st' :
  dir ≠ "" → copy_if_absent dir name st = (r, st') →
  extends st st'
  ∧ (r = Return () → is_Some (tree st' !! joinpath dir name))
  ∧ (∀ e, r = Raise e → st' = st).
Proof.
  intros Hdir. unfold copy_if_absent, exists_, copy2, write_text.
  case_bool_decide as Hex.
  { intros [= <- <-]. split; [apply extends_refl|]. by split. }
  apply eq_None_not_Some in Hex. rewrite Hex.
  destruct (tree st !! name) as [[content|]|]; simpl;
    [|intros [= <- <-]; split; [apply extends_refl|]; by split..].
  destruct dir as [|c dir]; [done|].
  destruct (tree st !! String c dir) as [[?|]|]; simpl; intros [= <- <-];
    try (split; [apply extends_refl|]; by split).
  split; [|split; [|done]].
  - apply set_tree_extends; [done|].
    by apply (has_slash_joinpath (String c dir) name).
  - intros _. simpl. rewrite lookup_insert_eq. eauto.
Qed.

Lemma copy_loop_extends dir names st r st' :
  dir ≠ "" → for_ (copy_if_absent dir) names st = (r, st') → extends st st'.
Proof.
  intros Hdir. revert st. induction names as [|name names IH]; intros st; simpl.
  - intros [= <- <-]. apply extends_refl.
  - unfold mbind, stateful_bind.
    destruct (copy_if_absent dir name st) as [[[]|e] st1] eqn:H1;
      apply copy_if_absent_run in H1 as (H1 & _ & _); try done.
    + intros H. eapply extends_trans; [done|]. by eapply IH.
    + by intros [= <- <-].
Qed.

(** A loop that went through finds every destination in place afterwards,
    and in every later state. *)
Lemma copy_loop_again dir names st st' st2 :
  dir ≠ "" → for_ (copy_if_absent dir) names st = (Return (), st') →
  extends st' st2 → for_ (copy_if_absent dir) names st2 = (Return (), st2).
Proof.
  intros Hdir. revert st. induction names as [|name names IH]; intros st; simpl.
  - done.
  - unfold mbind, stateful_bind.
    destruct (copy_if_absent dir name st) as [[[]|e] st1] eqn:H1; [|done].
    intros Hrest Hext.
    apply copy_if_absent_run in H1 as (_ & [x Hx] & _); try done.
    pose proof (copy_loop_extends _ _ _ _ _ Hdir Hrest) as (Hsub1 & _).
    pose proof Hext as (Hsub2 & _).
    assert (tree st2 !! joinpath dir name = Some x) as Hin.
    { eapply lookup_weaken; [|exact Hsub2]. by eapply lookup_weaken. }
    unfold copy_if_absent at 1, exists_. rewrite Hin.
    rewrite bool_decide_eq_true_2 by eauto.
    by eapply IH.
Qed.

(** A loop that stopped on an exception stops on it again, in the state it
    left. *)
Lemma copy_loop_raises_again dir names st e st' :
  dir ≠ "" → for_ (copy_if_absent dir) names st = (Raise e, st') →
  for_ (copy_if_absent dir) names st' = (Raise e, st').
Proof.
  intros Hdir. revert st. induction names as [|name names IH]; intros st; simpl.
  - done.
  - unfold mbind, stateful_bind.
    destruct (copy_if_absent dir name st) as [[[]|e1] st1] eqn:H1.
    + intros Hrest.
      apply copy_if_absent_run in H1 as (_ & [x Hx] & _); try done.
      pose proof (copy_loop_extends _ _ _ _ _ Hdir Hrest) as (Hsub1 & _).
      assert (tree st' !! joinpath dir name = Some x) as Hin
        by by eapply lookup_weaken.
      unfold copy_if_absent at 1, exists_. rewrite Hin.
      rewrite bool_decide_eq_true_2 by eauto.
      by eapply IH.
    + intros [= <- <-].
      pose proof H1 as H1'.
      apply copy_if_absent_run in H1' as (_ & _ & Heq); try done.
      rewrite (Heq e1 eq_refl) in *. by rewrite H1.
Qed.

(** ** Running a copying phase again *)

Lemma settles_ret : settles (mret ()).
Proof.
  intros st r st' [= <- <-]. split; [apply extends_refl|]. by split.
Qed.

Lemma settles_seq (c1 c2 : F unit) : settles c1 → settles c2 → settles (c1;; c2).
Proof.
  intros H1 H2 st r st'. unfold mbind, stateful_bind.
  destruct (c1 st) as [[[]|e1] st1] eqn:E1.
  - destruct (H1 _ _ _ E1) as (X1 & R1 & _). intros E2.
    destruct (H2 _ _ _ E2) as (X2 & R2 & Z2).
    split; [by eapply extends_trans|]. split.
    + intros -> st2 Hext.
      rewrite (R1 eq_refl st2) by by eapply extends_trans.
      by apply R2.
    + intros e ->. rewrite (R1 eq_refl st') by done. by apply Z2.
  - destruct (H1 _ _ _ E1) as (X1 & _ & Z1). intros [= <- <-].
    split; [done|]. split; [done|]. intros e [= <-].
    by rewrite (Z1 e1).
Qed.

Lemma settles_for {A} (body : A → F unit) (l : list A) :
  (∀ x, settles (body x)) → settles (for_ body l).
Proof.
  intros H. induction l as [|x l IH]; simpl; [apply settles_ret|].
  by apply settles_seq.
Qed.

Lemma copy_all_settles suffix dir : dir ≠ "" → settles (copy_all suffix dir).
Proof.
  intros Hdir st r st'. unfold copy_all, mbind, stateful_bind, gets. simpl.
  intros Hrun. pose proof (copy_loop_extends _ _ _ _ _ Hdir Hrun) as Hext.
  split; [done|]. split.
  - intros -> st2 Hext2.
    rewrite (top_listing_stable st st2) by by eapply extends_trans.
    by eapply copy_loop_again.
  - intros e ->. rewrite (top_listing_stable st st') by done.
    by eapply copy_loop_raises_again.
Qed.

Lemma organize_settles : settles organize_epub_structure.
Proof.
  unfold organize_epub_structure.
  do 3 (apply settles_seq; [by apply copy_all_settles|]).
  apply settles_for. intros img_ext. by apply copy_all_settles.
Qed.

(** C5: [organize_epub_structure] run on the state that a first run left
    ends as the first run ended and leaves that state as it is; and a run
    keeps every entry that was there before it, with its content. *)
Theorem organize_twice (st : fixer) :
  organize_epub_structure (organize_epub_structure st).2
  = organize_epub_structure st
  ∧ ∀ path e, tree st !! path = Some e →
      tree (organize_epub_structure st).2 !! path = Some e.
Proof.
  destruct (organize_epub_structure st) as [r st'] eqn:Hrun.
  destruct (organize_settles _ _ _ Hrun) as ((Hsub & _) & Hret & Hraise). simpl.
  split.
  - destruct r as [[]|e]; [apply Hret; [done | apply extends_refl] | by apply Hraise].
  - intros path e Hin. by eapply lookup_weaken.
Qed.

End organize.

(** ** A run on the example project *)

Section organize_examples.
#[local] Existing Instance example_platform.

(** On the example project a run copies the stylesheet and the image, keeps
    the older copy of the document, and leaves the other files where they
    are. *)
Example organize_loose :
  (organize_epub_structure FixerExamples.fixer_loose).1 = Return ()
  ∧ tree (organize_epub_structure FixerExamples.fixer_loose).2
    = <["OEBPS/styles/style.css" := File "p {}"]>
        (<["OEBPS/images/cover.PNG" := File "png"]> FixerExamples.tree_loose)
  ∧ tree (organize_epub_structure FixerExamples.fixer_loose).2
      !! "OEBPS/text/2-tools.xhtml" = Some (File "old").
Proof. vm_compute. repeat split. Qed.

End organize_examples.

(** ** Paths *)

Lemma string_app_cons (x : ascii) (a b : string) :
  String x a +:+ b = String x (a +:+ b).
Proof. reflexivity. Qed.

Lemma string_app_assoc (a b c : string) : (a +:+ b) +:+ c = a +:+ b +:+ c.
Proof.
  induction a as [|x a IH]; [done|]. by rewrite !string_app_cons, IH.
Qed.

Lemma string_app_nil_r (a : string) : a +:+ "" = a.
Proof. induction a as [|x a IH]; [done|]. by rewrite string_app_cons, IH. Qed.

Lemma string_app_length (a b : string) :
  String.length (a +:+ b) = String.length a + String.length b.
Proof.
  induction a as [|x a IH]; [done|]. rewrite string_app_cons. simpl. by rewrite IH.
Qed.

Lemma prefix_app (p r : string) : String.prefix p (p +:+ r) = true.
Proof.
  induction p as [|x p IH]; [apply prefix_empty|].
  rewrite string_app_cons. simpl.
  destruct (ascii_dec x x); [done|congruence].
Qed.

Lemma prefix_app_inv (p s : string) :
  String.prefix p s = true → s = p +:+ Py.drop (String.length p) s.
Proof.
  revert s. induction p as [|x p IH]; intros s; [reflexivity|].
  destruct s as [|y s]; simpl; [done|].
  destruct (ascii_dec x y) as [->|]; [|done].
  intros H. rewrite string_app_cons. f_equal. by apply IH.
Qed.

Lemma prefix_app_l (a b s : string) :
  String.prefix (a +:+ b) s = true → String.prefix a s = true.
Proof.
  revert s. induction a as [|x a IH]; intros s; [intros; apply prefix_empty|].
  rewrite string_app_cons.
  destruct s as [|y s]; simpl; [done|].
  destruct (ascii_dec x y); [apply IH | done].
Qed.

Lemma prefix_length (p s : string) :
  String.prefix p s = true → String.length p ≤ String.length s.
Proof.
  intros H%prefix_app_inv. rewrite H, string_app_length. lia.
Qed.

Lemma joinpath_app dir name : joinpath dir name = joinpath dir "" +:+ name.
Proof.
  destruct dir as [|c dir]; [done|]. unfold joinpath.
  by rewrite !string_app_assoc.
Qed.

Lemma joinpath_nonempty dir name : name ≠ "" → joinpath dir name ≠ "".
Proof. by destruct dir, name. Qed.

Lemma joinpath_dir dir : dir ≠ "" → joinpath dir "" = dir +:+ "/".
Proof. destruct dir as [|c dir]; [done|]. intros _. reflexivity. Qed.

Lemma child_name_joinpath dir path name :
  child_name dir path = Some name →
  path = joinpath dir name ∧ name ≠ "" ∧ has_slash name = false.
Proof.
  unfold child_name.
  destruct (String.prefix (joinpath dir "") path) eqn:Hp; [|done].
  apply prefix_app_inv in Hp.
  destruct (Py.drop _ path) as [|c r] eqn:Hd; [done|].
  destruct (has_slash (String c r)) eqn:Hs; [done|].
  intros [= <-]. by rewrite joinpath_app, Hp at 1.
Qed.

Lemma prefix_joinpath dir name : String.prefix (joinpath dir "") (joinpath dir name) = true.
Proof. rewrite (joinpath_app dir name). apply prefix_app. Qed.

(** What lies below a sub-directory lies below the directory. *)
Lemma prefix_joinpath_child dir name path :
  name ≠ "" →
  String.prefix (joinpath (joinpath dir name) "") path = true →
  String.prefix (joinpath dir "") path = true.
Proof.
  intros Hname. rewrite joinpath_dir by by apply joinpath_nonempty.
  rewrite (joinpath_app dir name), string_app_assoc. apply prefix_app_l.
Qed.

(** A directory is not below itself. *)
Lemma not_below_itself path : path ≠ "" → String.prefix (joinpath path "") path = false.
Proof.
  intros Hne. destruct (String.prefix _ path) eqn:H; [|done].
  apply prefix_length in H. rewrite joinpath_dir in H by done.
  rewrite string_app_length in H. simpl in H. lia.
Qed.

Section packaging.
Context {pf : platform}.

(** ** The listing of a directory *)

Lemma elem_of_iterdir t dir name :
  name ∈ iterdir t dir ↔ ∃ path, is_Some (t !! path) ∧ child_name dir path = Some name.
Proof.
  unfold iterdir. rewrite merge_sort_Permutation, elem_of_elements, elem_of_set_omap.
  by setoid_rewrite elem_of_dom.
Qed.

Lemma iterdir_agree t t' dir :
  (∀ path, String.prefix (joinpath dir "") path = true → t' !! path = t !! path) →
  iterdir t' dir = iterdir t dir.
Proof.
  intros H. unfold iterdir. do 2 f_equal. apply set_eq. intros name.
  rewrite !elem_of_set_omap.
  split; intros (path & Hin & Hname); exists path; (split; [|done]);
    apply elem_of_dom; apply elem_of_dom in Hin;
    destruct (child_name_joinpath _ _ _ Hname) as (-> & _ & _);
    [rewrite <- H | rewrite H]; try done; apply prefix_joinpath.
Qed.

(** ** The walk below a directory *)

Lemma below_agree t t' top :
  (∀ path, String.prefix (joinpath top "") path = true → t' !! path = t !! path) →
  below t' top = below t top.
Proof.
  intros H. unfold below. f_equal. apply set_eq. intros path.
  rewrite !elem_of_filter, !elem_of_dom.
  split; intros [Hp Hin]; (split; [done|]); [rewrite <- H | rewrite H]; done.
Qed.

Lemma below_child t top name :
  name ≠ "" → is_Some (t !! joinpath top name) →
  below t (joinpath top name) < below t top.
Proof.
  intros Hname Hin. unfold below. apply subset_size.
  apply elem_of_subset. split.
  - intros path. rewrite !elem_of_filter. intros [Hp ?]. split; [|done].
    by eapply prefix_joinpath_child.
  - intros Hall. specialize (Hall (joinpath top name)).
    rewrite !elem_of_filter, elem_of_dom in Hall.
    destruct Hall as [Hp _]; [split; [apply prefix_joinpath | done]|].
    rewrite not_below_itself in Hp; [done|]. by apply joinpath_nonempty.
Qed.

Lemma below_top t top : top ≠ "" → is_Some (t !! top) → below t top < size t.
Proof.
  intros Hne Hin. unfold below. rewrite <- size_dom. apply subset_size.
  apply elem_of_subset. split.
  - intros path. rewrite elem_of_filter. tauto.
  - intros Hall. specialize (Hall top). rewrite elem_of_filter, elem_of_dom in Hall.
    destruct Hall as [Hp _]; [done|]. by rewrite not_below_itself in Hp.
Qed.

Lemma filter_ext_in {A} (P Q : A → Prop) `{!∀ x, Decision (P x), !∀ x, Decision (Q x)}
    (l : list A) :
  (∀ x, x ∈ l → P x ↔ Q x) → filter P l = filter Q l.
Proof.
  induction l as [|x l IH]; intros Hext; [done|].
  rewrite !filter_cons.
  rewrite IH by (intros y Hy; apply Hext; by right).
  assert (P x ↔ Q x) as Hx by (apply Hext; by left).
  destruct (decide (P x)), (decide (Q x)); tauto || done.
Qed.

(** The walk is the same with any depth that exceeds the number of entries
    below [top], and on any tree with the same entries below [top]. *)
Lemma walk_from_agree n m t t' top :
  (∀ path, String.prefix (joinpath top "") path = true → t' !! path = t !! path) →
  below t top < n → below t top < m →
  walk_from n t top = walk_from m t' top.
Proof.
  revert m top. induction n as [|n IH]; intros m top Hagree Hn Hm; [lia|].
  destruct m as [|m]; [lia|]. simpl.
  rewrite (iterdir_agree t t' top Hagree).
  assert (∀ name, name ∈ iterdir t top →
            name ≠ "" ∧ is_Some (t !! joinpath top name)
            ∧ t' !! joinpath top name = t !! joinpath top name) as Hname.
  { intros name (path & Hin & Hc)%elem_of_iterdir.
    destruct (child_name_joinpath _ _ _ Hc) as (-> & Hne & _).
    split; [done|]. split; [done|]. apply Hagree, prefix_joinpath. }
  f_equal.
  - f_equal. apply filter_ext_in. intros name (_ & _ & Heq)%Hname.
    unfold is_file. by rewrite Heq.
  - rewrite (filter_ext_in (λ name, Is_true (is_dir t' (joinpath top name)))
               (λ name, Is_true (is_dir t (joinpath top name)))).
    2:{ intros name (_ & _ & Heq)%Hname. unfold is_dir. by rewrite Heq. }
    apply Forall_bind_ext, Forall_forall.
    intros name [_ (Hne & Hin & _)%Hname]%list_elem_of_filter.
    pose proof (below_child t top name Hne Hin).
    apply IH; [|lia..].
    intros path Hp. apply Hagree. by eapply prefix_joinpath_child.
Qed.

Lemma walk_from_files n t top path :
  path ∈ walk_from n t top →
  (∃ content, t !! path = Some (File content))
  ∧ String.prefix (joinpath top "") path = true.
Proof.
  revert top. induction n as [|n IH]; intros top; simpl; [by intros ?%elem_of_nil|].
  rewrite elem_of_app, list_elem_of_fmap, list_elem_of_bind.
  intros [(name & -> & [Hf _]%list_elem_of_filter)
         | (name & Hin & [_ Hname]%list_elem_of_filter)].
  - split; [|apply prefix_joinpath]. unfold is_file in Hf.
    destruct (t !! joinpath top name) as [[content|]|]; [eauto|done..].
  - apply elem_of_iterdir in Hname as (p & _ & Hc).
    destruct (child_name_joinpath _ _ _ Hc) as (_ & Hne & _).
    destruct (IH _ Hin) as [Hfile Hp]. split; [done|].
    by eapply prefix_joinpath_child.
Qed.

Lemma elem_of_walk_files t dir path :
  path ∈ walk_files t dir →
  (∃ content, t !! path = Some (File content))
  ∧ String.prefix (joinpath dir "") path = true.
Proof.
  unfold walk_files. destruct (is_dir t dir); [apply walk_from_files|].
  by intros ?%elem_of_nil.
Qed.

Lemma walk_files_members t dir :
  Forall (λ path, ∃ content, t !! path = Some (File content)) (walk_files t dir).
Proof.
  apply Forall_forall. intros path [H _]%elem_of_walk_files. done.
Qed.

(** The walk of [OEBPS] reads the package tree only. *)
Lemma walk_files_agree t t' :
  (∀ path, path = "OEBPS" ∨ String.prefix "OEBPS/" path = true →
     t' !! path = t !! path) →
  walk_files t' "OEBPS" = walk_files t "OEBPS".
Proof.
  intros H. unfold walk_files, is_dir. rewrite (H "OEBPS") by by left.
  destruct (t !! "OEBPS") as [[content|]|] eqn:Htop; try done.
  assert (∀ path, String.prefix (joinpath "OEBPS" "") path = true →
            t' !! path = t !! path) as Hagree by (intros path Hp; apply H; by right).
  symmetry. apply walk_from_agree; [done|..].
  - apply below_top; [done | by rewrite Htop].
  - rewrite <- (below_agree t t' "OEBPS" Hagree).
    apply below_top; [done|]. rewrite (H "OEBPS") by by left. by rewrite Htop.
Qed.

(** ** Writing the archive *)

Lemma set_epub_same st z : epub st = z → set_epub z st = st.
Proof. intros <-. by destruct st. Qed.

Lemma oebps_members_files t :
  arcname <$> oebps_members t = walk_files t "OEBPS"
  ∧ Forall (λ m, String.prefix "OEBPS/" (arcname m) = true
                 ∧ compress m = ZIP_DEFLATED
                 ∧ t !! arcname m = Some (File (data m)))
      (oebps_members t).
Proof.
  unfold oebps_members.
  assert (Forall (λ path, (∃ content, t !! path = Some (File content))
                          ∧ String.prefix "OEBPS/" path = true)
            (walk_files t "OEBPS")) as H.
  { apply Forall_forall. by intros path ?%elem_of_walk_files. }
  revert H. generalize (walk_files t "OEBPS"). intros paths H.
  induction H as [|path paths ((content & Hin) & Hp) _ [IH1 IH2]]; [done|].
  assert (member_of t path path ZIP_DEFLATED
          = Some (ZipMember path ZIP_DEFLATED content)) as Hmem
    by (unfold member_of; by rewrite Hin).
  cbn [omap list_omap]. rewrite Hmem. split.
  - rewrite fmap_cons. by rewrite IH1.
  - by constructor.
Qed.

Lemma oebps_members_agree t t' :
  (∀ path, path = "OEBPS" ∨ String.prefix "OEBPS/" path = true →
     t' !! path = t !! path) →
  oebps_members t' = oebps_members t.
Proof.
  intros H. unfold oebps_members. rewrite (walk_files_agree t t' H).
  apply list_omap_ext, Forall_Forall2_diag, Forall_forall.
  intros path [_ Hp]%elem_of_walk_files. unfold member_of.
  rewrite H; [done | by right].
Qed.

Lemma planned_agree t t' :
  (∀ path, path = "OEBPS" ∨ String.prefix "OEBPS/" path = true →
     t' !! path = t !! path) →
  planned t' = planned t.
Proof. intros H. unfold planned. by rewrite (walk_files_agree t t' H). Qed.

Lemma arcname_members t : arcname <$> members t = planned t.
Proof.
  unfold members, planned. rewrite !fmap_cons.
  by rewrite (proj1 (oebps_members_files t)).
Qed.

Lemma written_before_prefix fault ms : written_before fault ms `prefix_of` ms.
Proof.
  induction ms as [|m ms IH]; simpl; [done|].
  destruct (fault (arcname m)); [apply prefix_nil | by apply prefix_cons].
Qed.

Lemma written_before_all fault ms :
  first_fault fault (arcname <$> ms) = None → written_before fault ms = ms.
Proof.
  induction ms as [|m ms IH]; csimpl; [done|].
  destruct (fault (arcname m)); [done|]. intros H. by rewrite IH.
Qed.

Lemma written_before_app fault ms ms' :
  written_before fault (ms ++ ms')
  = match first_fault fault (arcname <$> ms) with
    | Some _ => written_before fault ms
    | None => ms ++ written_before fault ms'
    end.
Proof.
  induction ms as [|m ms IH]; csimpl; [done|].
  destruct (fault (arcname m)); [done|]. rewrite IH.
  by destruct (first_fault fault (arcname <$> ms)).
Qed.

Lemma first_fault_elem fault arcs arc e :
  arc ∈ arcs → fault arc = Some e → is_Some (first_fault fault arcs).
Proof.
  induction 1 as [arc arcs | arc a arcs Hin IH]; simpl; intros Hf.
  - rewrite Hf. eauto.
  - destruct (fault a); eauto.
Qed.

(** The loop over the files: it writes a member for each file up to the
    first on which the writer fails. *)
Lemma zip_loop fault paths st old :
  epub st = Some old →
  Forall (λ path, ∃ content, tree st !! path = Some (File content)) paths →
  for_ (λ path, zip_write fault path path ZIP_DEFLATED) paths st
  = (match first_fault fault paths with
     | Some e => Raise e
     | None => Return ()
     end,
     set_epub
       (Some (old ++ written_before fault
                       (omap (λ path, member_of (tree st) path path ZIP_DEFLATED) paths)))
       st).
Proof.
  intros Hold Hfiles. revert st old Hold Hfiles.
  induction paths as [|path paths IH]; intros st old Hold Hfiles.
  - simpl. by rewrite app_nil_r, set_epub_same.
  - apply Forall_cons in Hfiles as [[content Hpath] Hfiles].
    assert (member_of (tree st) path path ZIP_DEFLATED
            = Some (ZipMember path ZIP_DEFLATED content)) as Hmem
      by (unfold member_of; by rewrite Hpath).
    cbn [for_ omap list_omap first_fault].
    unfold mbind, stateful_bind, zip_write at 1. rewrite Hmem, Hold.
    change (default [] (Some old)) with old.
    cbn [written_before arcname].
    destruct (fault path) as [e|] eqn:Hfault.
    + by rewrite app_nil_r, set_epub_same.
    + rewrite (IH (set_epub (Some (old ++ [ZipMember path ZIP_DEFLATED content])) st)
                 (old ++ [ZipMember path ZIP_DEFLATED content]) eq_refl Hfiles).
      change (tree (set_epub _ st)) with (tree st).
      unfold set_epub; simpl. by rewrite <- app_assoc.
Qed.

(** ** The steps before the archive is opened *)

Lemma keeps_refl st : keeps st st.
Proof. by repeat split. Qed.

Lemma package_tree_apart path other :
  path = "OEBPS" ∨ String.prefix "OEBPS/" path = true →
  String.prefix "OEBPS" other = false → other ≠ path.
Proof.
  intros [-> | Hp] Ho ->; [done|].
  apply (prefix_app_l "OEBPS" "/") in Hp. congruence.
Qed.

Lemma keeps_set_tree st t' :
  (∀ path, path = "OEBPS" ∨ String.prefix "OEBPS/" path = true →
     t' !! path = tree st !! path) →
  keeps st (set_tree t' st).
Proof. intros H. by repeat split. Qed.

Lemma prepared_agree t path :
  path = "OEBPS" ∨ String.prefix "OEBPS/" path = true → prepared t !! path = t !! path.
Proof.
  intros Hp. unfold prepared.
  rewrite !lookup_insert_ne; [done|by eapply package_tree_apart..].
Qed.

Lemma mkdir_exist_ok_run path st :
  mkdir_exist_ok path st
  = match tree st !! path with
    | Some (File _) => (Raise FileExistsError, st)
    | _ => (Return (), set_tree (<[path := Dir]> (tree st)) st)
    end.
Proof.
  unfold mkdir_exist_ok. destruct (tree st !! path) as [[c|]|] eqn:Hp; try done.
  rewrite insert_id by done. by destruct st.
Qed.

Lemma write_text_run dir name content st :
  dir = "" ∨ tree st !! dir = Some Dir →
  write_text dir name content st
  = match tree st !! joinpath dir name with
    | Some Dir => (Raise IsADirectoryError, st)
    | _ => (Return (), set_tree (<[joinpath dir name := File content]> (tree st)) st)
    end.
Proof.
  intros Hdir. unfold write_text.
  destruct (tree st !! joinpath dir name) as [[c|]|]; try done;
    destruct Hdir as [-> | Hd]; try done; destruct dir; try done; by rewrite Hd.
Qed.

Lemma setup_run {A} (k : F A) st :
  match blocked (tree st) with
  | Some e =>
      ∃ st1, (mkdir_exist_ok "META-INF";;
              write_text "META-INF" "container.xml" container_xml;;
              write_text "" "mimetype" "application/epub+zip";; k) st
             = (Raise e, st1) ∧ keeps st st1
  | None =>
      (mkdir_exist_ok "META-INF";;
       write_text "META-INF" "container.xml" container_xml;;
       write_text "" "mimetype" "application/epub+zip";; k) st
      = k (set_tree (prepared (tree st)) st)
  end.
Proof.
  unfold blocked, mbind, stateful_bind. rewrite mkdir_exist_ok_run.
  assert (∀ t', (∀ path, path = "OEBPS" ∨ String.prefix "OEBPS/" path = true →
                   t' !! path = tree st !! path) →
                keeps st (set_tree t' st)) as Hkeep by apply keeps_set_tree.
  assert (∀ (t' : gmap string entry) p e path,
            path = "OEBPS" ∨ String.prefix "OEBPS/" path = true →
            String.prefix "OEBPS" p = false →
            <[p := e]> t' !! path = t' !! path) as Hne.
  { intros t' p e path Hp Ho. apply lookup_insert_ne. by eapply package_tree_apart. }
  destruct (tree st !! "META-INF") as [[c|]|] eqn:H1;
    [exists st; split; [done | apply keeps_refl]|..].
  all: cbv beta iota; rewrite write_text_run by (right; apply lookup_insert_eq).
  all: change (joinpath "META-INF" "container.xml") with "META-INF/container.xml".
  all: cbn [tree set_tree]; rewrite lookup_insert_ne by done.
  all: destruct (tree st !! "META-INF/container.xml") as [[c2|]|] eqn:H2.
  all: try (eexists; split; [done|]; apply Hkeep; intros path Hp; by rewrite Hne).
  all: cbv beta iota; rewrite write_text_run by by left.
  all: change (joinpath "" "mimetype") with "mimetype".
  all: cbn [tree set_tree]; rewrite !lookup_insert_ne by done.
  all: destruct (tree st !! "mimetype") as [[c3|]|] eqn:H3.
  all: try (eexists; split; [done|]; apply Hkeep; intros path Hp; by rewrite !Hne).
  all: done.
Qed.

(** ** The body of [create_epub_package] *)

Lemma package_body_run fault st :
  match blocked (tree st) with
  | Some e => ∃ st1, package_body fault st = (Raise e, st1) ∧ keeps st st1
  | None =>
      package_body fault st
      = match first_fault fault (planned (tree st)) with
        | Some e =>
            (Raise e,
             Fixer (project_dir st) (prepared (tree st))
               (Some (written_before fault (members (tree st))))
               (fixes_log st) (log st))
        | None =>
            (Return (Some (joinpath (project_dir st) epub_name)),
             Fixer (project_dir st) (prepared (tree st))
               (Some (members (tree st)))
               (fixes_log st ++ ["EPUB: " +:+ created st])
               (log st ++ [Info ("Fixed EPUB: " +:+ created st)]))
        end
  end.
Proof.
  unfold package_body.
  match goal with
  | |- context [write_text "" "mimetype" _ ≫= λ _, ?k] =>
      pose proof (setup_run k st) as Hsetup
  end.
  destruct (blocked (tree st)) as [e|]; [exact Hsetup|].
  rewrite Hsetup. clear Hsetup.
  assert (prepared (tree st) !! "mimetype"
          = Some (File "application/epub+zip")) as Hm by apply lookup_insert_eq.
  assert (prepared (tree st) !! "META-INF/container.xml"
          = Some (File container_xml)) as Hc.
  { unfold prepared. rewrite lookup_insert_ne by done. apply lookup_insert_eq. }
  assert (oebps_members (prepared (tree st)) = oebps_members (tree st)) as Ho
    by apply oebps_members_agree, prepared_agree.
  assert (walk_files (prepared (tree st)) "OEBPS" = walk_files (tree st) "OEBPS") as Hw
    by apply walk_files_agree, prepared_agree.
  unfold mbind, stateful_bind, zip_open, gets.
  unfold zip_write at 1, member_of.
  cbn [tree set_tree set_epub epub]. rewrite Hm.
  unfold planned, members. cbn [first_fault written_before arcname mimetype_member].
  destruct (fault "mimetype") as [e|] eqn:F1; [done|].
  cbv beta iota. unfold zip_write at 1, member_of.
  cbn [tree set_tree set_epub epub]. rewrite Hc.
  cbn [written_before arcname container_member].
  destruct (fault "META-INF/container.xml") as [e|] eqn:F2; [done|].
  cbv beta iota. cbn [tree set_tree set_epub epub default].
  match goal with
  | |- context [for_ ?f (walk_files ?t "OEBPS") ?s] =>
      change s with (Fixer (project_dir st) (prepared (tree st))
                       (Some [mimetype_member; container_member])
                       (fixes_log st) (log st))
  end.
  rewrite (zip_loop fault (walk_files (prepared (tree st)) "OEBPS")
             (Fixer (project_dir st) (prepared (tree st))
                (Some [mimetype_member; container_member]) (fixes_log st) (log st))
             [mimetype_member; container_member] eq_refl)
    by apply walk_files_members.
  cbn [tree]. fold (oebps_members (prepared (tree st))). rewrite Ho, Hw.
  destruct (first_fault fault (walk_files (tree st) "OEBPS")) as [e|] eqn:F3; [done|].
  rewrite written_before_all
    by by rewrite (proj1 (oebps_members_files (tree st))).
  reflexivity.
Qed.

Lemma create_epub_package_run fault st :
  match blocked (tree st) with
  | Some e =>
      ∃ st1, create_epub_package fault st = (Return None, st1)
             ∧ (∀ path, path = "OEBPS" ∨ String.prefix "OEBPS/" path = true →
                  tree st1 !! path = tree st !! path)
             ∧ project_dir st1 = project_dir st ∧ epub st1 = epub st
             ∧ fixes_log st1 = fixes_log st
             ∧ log st1 = log st ++ [step_6; Error "Error creating EPUB package: " e]
  | None =>
      create_epub_package fault st
      = match first_fault fault (planned (tree st)) with
        | Some e =>
            (Return None,
             Fixer (project_dir st) (prepared (tree st))
               (Some (written_before fault (members (tree st))))
               (fixes_log st)
               (log st ++ [step_6; Error "Error creating EPUB package: " e]))
        | None =>
            (Return (Some (joinpath (project_dir st) epub_name)),
             Fixer (project_dir st) (prepared (tree st))
               (Some (members (tree st)))
               (fixes_log st ++ ["EPUB: " +:+ created st])
               (log st ++ [step_6; Info ("Fixed EPUB: " +:+ created st)]))
        end
  end.
Proof.
  pose proof (package_body_run fault
    (Fixer (project_dir st) (tree st) (epub st) (fixes_log st) (log st ++ [step_6])))
    as Hbody.
  cbn [tree project_dir epub fixes_log log] in Hbody.
  assert (create_epub_package fault st
          = match package_body fault
                    (Fixer (project_dir st) (tree st) (epub st) (fixes_log st)
                       (log st ++ [step_6])) with
            | (Return a, st') => (Return a, st')
            | (Raise e, st') =>
                (Return None,
                 Fixer (project_dir st') (tree st') (epub st') (fixes_log st')
                   (log st' ++ [Error "Error creating EPUB package: " e]))
            end) as ->.
  { unfold create_epub_package, try_except, mbind, stateful_bind, logger, step_6.
    by destruct (package_body _ _) as [[o|e] st']. }
  destruct (blocked (tree st)) as [e|].
  - destruct Hbody as (st1 & -> & Ht & Hp & He & Hf & Hl). simpl in *.
    eexists. split; [done|]. simpl. rewrite Hl, <- app_assoc. done.
  - destruct (first_fault fault (planned (tree st))) as [e|]; rewrite Hbody;
      unfold created; cbn [project_dir tree epub fixes_log log];
      by rewrite <- app_assoc.
Qed.

(** C3 (as amended): when the archive writer fails on one of the entries to
    be written, [create_epub_package] does not raise: it returns [None]; no
    fix is recorded, and the logger gets the announcement of the step and
    then the error that ended the body of the [try].  No entry is written
    after the one that failed, and the entries written before it stay: the
    archive holds exactly the members that precede the first entry on which
    the writer fails, in the order [mimetype], [META-INF/container.xml],
    the walk of [OEBPS]; when a step before the archive is opened raises,
    the archive is as it was. *)
Theorem write_fault_returns_none fault st arc e0 :
  arc ∈ planned (tree st) → fault arc = Some e0 →
  (create_epub_package fault st).1 = Return None
  ∧ fixes_log (create_epub_package fault st).2 = fixes_log st
  ∧ (∃ e, package_error fault (tree st) = Some e
          ∧ log (create_epub_package fault st).2
            = log st ++ [Info "Step 6: Creating EPUB package...";
                         Error "Error creating EPUB package: " e])
  ∧ epub (create_epub_package fault st).2
    = match blocked (tree st) with
      | Some _ => epub st
      | None =>
          Some (written_before fault
                  (mimetype_member :: container_member :: oebps_members (tree st)))
      end.
Proof.
  intros Hin Hfault.
  pose proof (create_epub_package_run fault st) as Hrun.
  unfold package_error.
  destruct (blocked (tree st)) as [e|].
  - destruct Hrun as (st1 & -> & _ & _ & He & Hf & Hl). simpl.
    split; [done|]. split; [done|]. split; [|done]. by exists e.
  - rewrite Hrun.
    destruct (first_fault_elem fault _ _ _ Hin Hfault) as [e ->]. simpl.
    split; [done|]. split; [done|]. split; [|done]. by exists e.
Qed.

(** C8: an archive that [create_epub_package] returns begins with the member
    [mimetype], stored and holding [application/epub+zip]; the container
    descriptor comes second and the files below [OEBPS] follow.  Whatever a
    run leaves in the archive is an initial part of this list. *)
Theorem archive_starts_with_mimetype fault st :
  (∀ p, (create_epub_package fault st).1 = Return (Some p) →
     epub (create_epub_package fault st).2
     = Some (ZipMember "mimetype" ZIP_STORED "application/epub+zip"
             :: ZipMember "META-INF/container.xml" ZIP_DEFLATED container_xml
             :: oebps_members (tree (create_epub_package fault st).2)))
  ∧ (epub (create_epub_package fault st).2 = epub st
     ∨ ∃ l, epub (create_epub_package fault st).2 = Some l
            ∧ l `prefix_of`
                ZipMember "mimetype" ZIP_STORED "application/epub+zip"
                :: ZipMember "META-INF/container.xml" ZIP_DEFLATED container_xml
                :: oebps_members (tree (create_epub_package fault st).2))
  ∧ arcname <$> oebps_members (tree (create_epub_package fault st).2)
    = walk_files (tree (create_epub_package fault st).2) "OEBPS"
  ∧ Forall (λ m, String.prefix "OEBPS/" (arcname m) = true
                 ∧ compress m = ZIP_DEFLATED
                 ∧ tree (create_epub_package fault st).2 !! arcname m
                   = Some (File (data m)))
      (oebps_members (tree (create_epub_package fault st).2)).
Proof.
  split; [|split; [|apply oebps_members_files]];
    pose proof (create_epub_package_run fault st) as Hrun;
    destruct (blocked (tree st)) as [e|].
  - destruct Hrun as (st1 & -> & _). done.
  - rewrite Hrun. intros p.
    destruct (first_fault fault (planned (tree st))); [done|]. intros _. simpl.
    by rewrite (oebps_members_agree _ _ (prepared_agree (tree st))).
  - left. destruct Hrun as (st1 & -> & _ & _ & He & _). exact He.
  - right. rewrite Hrun.
    destruct (first_fault fault (planned (tree st)));
      cbn [snd epub tree];
      rewrite (oebps_members_agree _ _ (prepared_agree (tree st)));
      eexists; (split; [done|]);
      [apply (written_before_prefix fault (members (tree st))) | done].
Qed.

End packaging.

(** ** Packaging the example projects *)

Section packaging_examples.
#[local] Existing Instance example_platform.

Lemma write_fault_returns_none_witness :
  (create_epub_package FixerExamples.fault_on_css FixerExamples.fixer_styled).1
  = Return None
  ∧ fixes_log
      (create_epub_package FixerExamples.fault_on_css FixerExamples.fixer_styled).2
    = fixes_log FixerExamples.fixer_styled
  ∧ (∃ e, package_error FixerExamples.fault_on_css (tree FixerExamples.fixer_styled)
          = Some e
          ∧ log (create_epub_package FixerExamples.fault_on_css
                   FixerExamples.fixer_styled).2
            = log FixerExamples.fixer_styled
              ++ [Info "Step 6: Creating EPUB package...";
                  Error "Error creating EPUB package: " e])
  ∧ epub (create_epub_package FixerExamples.fault_on_css FixerExamples.fixer_styled).2
    = match blocked (tree FixerExamples.fixer_styled) with
      | Some _ => epub FixerExamples.fixer_styled
      | None =>
          Some (written_before FixerExamples.fault_on_css
                  (mimetype_member :: container_member
                   :: oebps_members (tree FixerExamples.fixer_styled)))
      end.
Proof.
  apply (write_fault_returns_none FixerExamples.fault_on_css
           FixerExamples.fixer_styled "OEBPS/styles/s.css" OSError).
  - apply (bool_decide_unpack _). vm_compute. exact I.
  - reflexivity.
Defined.

(** C3 (as stated) fails: the writer fails on the stylesheet, an entry to be
    written; nothing is raised, [None] is returned, and the archive is left
    with the three members written before. *)
Lemma write_fault_is_caught :
  FixerExamples.fault_on_css "OEBPS/styles/s.css" = Some OSError
  ∧ planned FixerExamples.tree_styled
    = ["mimetype"; "META-INF/container.xml"; "OEBPS/content.opf";
       "OEBPS/styles/s.css"]
  ∧ (create_epub_package FixerExamples.fault_on_css FixerExamples.fixer_styled).1
    = Return None
  ∧ epub (create_epub_package FixerExamples.fault_on_css FixerExamples.fixer_styled).2
    = Some [mimetype_member; container_member;
            ZipMember "OEBPS/content.opf" ZIP_DEFLATED "<package/>"]
  ∧ log (create_epub_package FixerExamples.fault_on_css FixerExamples.fixer_styled).2
    = [Info "Step 6: Creating EPUB package...";
       Error "Error creating EPUB package: " OSError].
Proof. vm_compute. repeat split. Qed.

Lemma archive_starts_with_mimetype_witness :
  epub (create_epub_package FixerExamples.no_fault FixerExamples.fixer_small).2
  = Some [ZipMember "mimetype" ZIP_STORED "application/epub+zip";
          ZipMember "META-INF/container.xml" ZIP_DEFLATED container_xml;
          ZipMember "OEBPS/content.opf" ZIP_DEFLATED "<package/>"].
Proof.
  refine (eq_trans
            (proj1 (archive_starts_with_mimetype FixerExamples.no_fault
                      FixerExamples.fixer_small)
               "/book/curls-and-contemplation.epub" _) _);
    vm_compute; reflexivity.
Defined.

End packaging_examples.
